(** * Email sender: recipient extraction, validation and sequential dispatch

    A shallow embedding of [email_sender.py] (class [EmailSender]) and the
    properties of its recipient pipeline.

    Python strings are sequences of Unicode code points; a code point is an
    [N] and a string a [list N].  The object's mutable attributes
    ([processed_emails], [stats], [config]) are the fields of a record that
    is threaded through every method, together with the trace of effects
    the method performs (log lines, sleeps, mail submissions).  A line
    passed to [log_message] is one event of the trace, whatever the state
    of the log file; what the methods print besides is left out. *)

From stdpp Require Import gmap strings list pretty.
From Stdlib Require Import ZArith Lia.

Local Open Scope N_scope.

#[local] Set Warnings "-clear-no-such-hyp".

(** ** Text *)

Module Text.

Abbreviation char := N (only parsing).
Abbreviation str := (list N) (only parsing).

(** A Python string literal whose characters are all below U+0100. *)
Definition lit (s : string) : str :=
  Ascii.N_of_ascii <$> String.list_ascii_of_string s.

Arguments lit : simpl never.

Definition LF : char := 0x0A.

(** A line as [readlines()] yields it: the text and its line feed. *)
Definition ln (s : string) : str := lit s ++ [LF].

(** [str.isspace] on one code point: the white-space table of CPython
    ([_Py_ascii_whitespace] below U+0080, [_PyUnicode_IsWhitespace]
    above). *)
Definition isspace (c : char) : bool :=
  ((0x09 <=? c) && (c <=? 0x0D)) || ((0x1C <=? c) && (c <=? 0x20))
  || (c =? 0x85) || (c =? 0xA0) || (c =? 0x1680)
  || ((0x2000 <=? c) && (c <=? 0x200A))
  || (c =? 0x2028) || (c =? 0x2029) || (c =? 0x202F) || (c =? 0x205F)
  || (c =? 0x3000).

(** [s.lstrip(chars)], [s.rstrip(chars)], [s.strip(chars)], with the set
    [chars] given as its membership test. *)
Fixpoint lstrip (p : char → bool) (s : str) : str :=
  match s with
  | [] => []
  | c :: s' => if p c then lstrip p s' else s
  end.

Definition rstrip (p : char → bool) (s : str) : str :=
  reverse (lstrip p (reverse s)).

Definition strip_chars (p : char → bool) (s : str) : str :=
  rstrip p (lstrip p s).

(** [s.strip()] *)
Definition strip (s : str) : str := strip_chars isspace s.

(** [c in s] for a one-character string [c]. *)
Definition contains (c : char) (s : str) : bool := existsb (N.eqb c) s.

(** [s.split(c)[0]]: the text before the first [c], all of [s] when
    there is none. *)
Fixpoint split_head (c : char) (s : str) : str :=
  match s with
  | [] => []
  | x :: s' => if x =? c then [] else x :: split_head c s'
  end.

Definition is_upper (c : char) : bool := (0x41 <=? c) && (c <=? 0x5A).
Definition is_lower (c : char) : bool := (0x61 <=? c) && (c <=? 0x7A).
Definition is_digit (c : char) : bool := (0x30 <=? c) && (c <=? 0x39).

(** [s.lower()].  The letters A to Z move to a to z.  Every other code
    point is left as it is: the Unicode lower-case mapping of a code point
    outside A to Z never produces one of the characters e, m, a, i, l, s
    or - alone, which is all that the one use of [lower], the header test,
    can observe. *)
Definition lower_char (c : char) : char := if is_upper c then c + 32 else c.
Definition lower (s : str) : str := lower_char <$> s.

Definition str_eqb (s t : str) : bool := bool_decide (s = t).

End Text.
Export Text.

(** ** Regular expressions

    The fragment of [re] that the validation pattern uses: character sets,
    concatenation, alternation and repetition.  [re_fullmatch] decides
    membership by Brzozowski derivatives; [lang] is the language a pattern
    denotes. *)

Module Re.

Inductive regex : Type :=
| Void
| Eps
| CharSet (p : char → bool)
| Cat (r1 r2 : regex)
| Alt (r1 r2 : regex)
| Star (r : regex).

(** [r+] and [r{2,}] *)
Definition Plus (r : regex) : regex := Cat r (Star r).
Definition AtLeast2 (r : regex) : regex := Cat r (Cat r (Star r)).
Definition Chr (c : char) : regex := CharSet (N.eqb c).

Fixpoint nullable (r : regex) : bool :=
  match r with
  | Void => false
  | Eps => true
  | CharSet _ => false
  | Cat r1 r2 => nullable r1 && nullable r2
  | Alt r1 r2 => nullable r1 || nullable r2
  | Star _ => true
  end.

Fixpoint deriv (c : char) (r : regex) : regex :=
  match r with
  | Void => Void
  | Eps => Void
  | CharSet p => if p c then Eps else Void
  | Cat r1 r2 =>
      if nullable r1 then Alt (Cat (deriv c r1) r2) (deriv c r2)
      else Cat (deriv c r1) r2
  | Alt r1 r2 => Alt (deriv c r1) (deriv c r2)
  | Star r1 => Cat (deriv c r1) (Star r1)
  end.

Fixpoint re_fullmatch (r : regex) (s : str) : bool :=
  match s with
  | [] => nullable r
  | c :: s' => re_fullmatch (deriv c r) s'
  end.

(** [re.match('^' + r + '$', s) is not None].  [re.match] looks for a
    match that starts at the first character, and without [re.MULTILINE]
    the [$] holds at the end of the string and also just before a line
    feed that is the last character: the string matches when all of it,
    or all of it but a final line feed, is in the language of [r]. *)
Definition re_match_anchored (r : regex) (s : str) : bool :=
  re_fullmatch (Cat r (Alt Eps (Chr LF))) s.

Inductive lang : regex → str → Prop :=
| lang_eps : lang Eps []
| lang_set p c : p c = true → lang (CharSet p) [c]
| lang_cat r1 r2 s1 s2 :
    lang r1 s1 → lang r2 s2 → lang (Cat r1 r2) (s1 ++ s2)
| lang_alt_l r1 r2 s : lang r1 s → lang (Alt r1 r2) s
| lang_alt_r r1 r2 s : lang r2 s → lang (Alt r1 r2) s
| lang_star_nil r : lang (Star r) []
| lang_star_app r s1 s2 :
    lang r s1 → lang (Star r) s2 → lang (Star r) (s1 ++ s2).

End Re.
Export Re.

(** ** Validation: [EmailSender.is_valid_email] *)

(** [[a-zA-Z0-9._%+-]] *)
Definition local_char (c : char) : bool :=
  is_lower c || is_upper c || is_digit c
  || (c =? 0x2E) || (c =? 0x5F) || (c =? 0x25) || (c =? 0x2B) || (c =? 0x2D).

(** [[a-zA-Z0-9.-]] *)
Definition domain_char (c : char) : bool :=
  is_lower c || is_upper c || is_digit c || (c =? 0x2E) || (c =? 0x2D).

(** [[a-zA-Z]] *)
Definition alpha_char (c : char) : bool := is_lower c || is_upper c.

Definition AT : char := 0x40.
Definition DOT : char := 0x2E.

(** [[a-zA-Z0-9._%+-]+@[a-zA-Z0-9.-]+\.[a-zA-Z]{2,}], the pattern between
    its two anchors. *)
Definition email_pattern : regex :=
  Cat (Plus (CharSet local_char))
 (Cat (Chr AT)
 (Cat (Plus (CharSet domain_char))
 (Cat (Chr DOT)
      (AtLeast2 (CharSet alpha_char))))).

Definition is_valid_email (email : str) : bool :=
  re_match_anchored email_pattern (strip email).


(** ** Values, exceptions and the state of an [EmailSender] *)

(** A configuration value.  The configuration holds strings and integers:
    that is what the environment branch of [load_config] builds and what the
    documented keys of a configuration file hold. *)
Inductive value : Type :=
| VStr (s : str)
| VInt (z : Z).

(** [f"{v}"] *)
Definition format_value (v : value) : str :=
  match v with
  | VStr s => s
  | VInt z => lit (pretty z)
  end.

(** [f"{n}"] for a count. *)
Definition format_nat (n : nat) : str := lit (pretty n).

(** The exceptions that the handlers of [send_single_email] tell apart, and
    every other subclass of [Exception]; [exn_text] is [str(e)]. *)
Inductive exn_class : Type :=
| SMTPAuthenticationError
| SMTPConnectError
| OtherException.

Record exn : Type := Exn { exn_kind : exn_class; exn_text : str }.

(** [KeyError(key)], raised by [self.config[key]]; its text is the [repr]
    of the key. *)
Definition KeyError (key : string) : exn :=
  Exn OtherException (lit "'" ++ lit key ++ lit "'").

Inductive outcome (A : Type) : Type :=
| Return (a : A)
| Raise (e : exn).
Arguments Return {A} a.
Arguments Raise {A} e.

(** [self.stats] *)
Record Stats : Type := mkStats {
  total : nat;
  sent : nat;
  failed : nat;
  invalid : nat;
  duplicates : nat
}.

(** The message that [create_email_message] builds. *)
Record message : Type := mkMessage {
  msg_from : str;
  msg_to : str;
  msg_subject : value;
  msg_body : value
}.

(** What a method does to the world, in the order it does it:
    [log_message(message)] (the line printed and written to the log file,
    without its time stamp), [time.sleep(seconds)] having returned, and
    [server.sendmail(from_addr, to_addr, msg.as_string())] being called. *)
Inductive event : Type :=
| Logged (message : str)
| Slept (seconds : value)
| Sendmail (from_addr : value) (to_addr : str) (msg : message).

Record EmailSender : Type := mkEmailSender {
  processed_emails : gset (list N);
  stats : Stats;
  config : gmap string value;
  trace : list event
}.

(** A method of the class: it may change the object and either returns or
    raises. *)
Definition M (A : Type) : Type := EmailSender → outcome A * EmailSender.

#[global] Instance M_ret : MRet M := λ A a self, (Return a, self).

#[global] Instance M_bind : MBind M := λ A B f m self,
  match m self with
  | (Return a, self') => f a self'
  | (Raise e, self') => (Raise e, self')
  end.

(** [try: m  except Exception as e: handler(e)] *)
Definition try_except {A} (m : M A) (handler : exn → M A) : M A := λ self,
  match m self with
  | (Return a, self') => (Return a, self')
  | (Raise e, self') => handler e self'
  end.

(** [try: m  finally: cleanup] *)
Definition try_finally {A} (m : M A) (cleanup : M unit) : M A := λ self,
  match m self with
  | (r, self') =>
      match cleanup self' with
      | (Return _, self'') => (r, self'')
      | (Raise e, self'') => (Raise e, self'')
      end
  end.

Definition emit (ev : event) : M unit := λ self,
  (Return (),
   mkEmailSender (processed_emails self) (stats self) (config self)
                 (trace self ++ [ev])).

Definition update_stats (f : Stats → Stats) : M unit := λ self,
  (Return (),
   mkEmailSender (processed_emails self) (f (stats self)) (config self)
                 (trace self)).

(** [self.config[key]] *)
Definition config_get (key : string) : M value := λ self,
  match config self !! key with
  | Some v => (Return v, self)
  | None => (Raise (KeyError key), self)
  end.

(** [email in self.processed_emails] *)
Definition is_processed (email : str) : M bool := λ self,
  (Return (bool_decide (email ∈ processed_emails self)), self).

(** [self.processed_emails.add(email)] *)
Definition add_processed (email : str) : M unit := λ self,
  (Return (),
   mkEmailSender ({[email]} ∪ processed_emails self) (stats self)
                 (config self) (trace self)).

(** [self.stats[...] += 1] and [self.stats['total'] = n] *)
Definition incr_sent (s : Stats) : Stats :=
  mkStats (total s) (S (sent s)) (failed s) (invalid s) (duplicates s).
Definition incr_failed (s : Stats) : Stats :=
  mkStats (total s) (sent s) (S (failed s)) (invalid s) (duplicates s).
Definition incr_invalid (s : Stats) : Stats :=
  mkStats (total s) (sent s) (failed s) (S (invalid s)) (duplicates s).
Definition incr_duplicates (s : Stats) : Stats :=
  mkStats (total s) (sent s) (failed s) (invalid s) (S (duplicates s)).
Definition set_total (n : nat) (s : Stats) : Stats :=
  mkStats n (sent s) (failed s) (invalid s) (duplicates s).

(** ** Logging: [log_message], [log_email_status] *)

Definition log_message (message : str) : M unit := emit (Logged message).

(** The [message] of [log_email_status]: the short form when [error_msg]
    is empty. *)
Definition status_message (email status error_msg : str) : str :=
  match error_msg with
  | [] => email ++ lit " | " ++ status
  | _ => email ++ lit " | " ++ status ++ lit " | " ++ error_msg
  end.

Definition log_email_status (email status error_msg : str) : M unit :=
  log_message (status_message email status error_msg).

(** ** Recipient extraction: [read_emails_from_csv] *)

(** What [open(csv_file)] and [readlines()] give. *)
Inductive file_result : Type :=
| FileNotFound
| ReadFailure (e : exn)
| FileLines (lines : list (list N)).

Definition header_tokens : list (list N) :=
  [lit "email"; lit "emails"; lit "mail"; lit "e-mail"].

(** [line.lower() in ['email', 'emails', 'mail', 'e-mail']] *)
Definition is_header (line : str) : bool :=
  existsb (str_eqb (lower line)) header_tokens.

Definition COMMA : char := 0x2C.
Definition SEMICOLON : char := 0x3B.
Definition TAB : char := 0x09.
Definition PIPE : char := 0x7C.

Definition separators : list N := [COMMA; SEMICOLON; TAB; PIPE].

(** The two quote characters, U+0022 and U+0027, that the extractor strips. *)
Definition is_quote (c : char) : bool := (c =? 0x22) || (c =? 0x27).

(** The [for separator in ...] loop over the separators still to try:
    the first one that occurs in the line cuts it ([break]); with none the
    candidate stays the line. *)
Fixpoint first_part (seps : list N) (line : str) : str :=
  match seps with
  | [] => line
  | separator :: seps' =>
      if contains separator line then strip (split_head separator line)
      else first_part seps' line
  end.

(** [possible_email] as it reaches validation. *)
Definition extract_candidate (line : str) : str :=
  strip_chars is_quote (first_part separators line).

(** The body of the [for line_num, line in enumerate(lines, 1)] loop;
    [emails] is the local list. *)
Definition process_line (line_num : nat) (line : str) (emails : list (list N))
  : M (list (list N)) :=
  let line := strip line in
  match line with
  | [] => mret emails
  | _ =>
    if is_header line then
      log_message (lit "INFO | Skipping header line: " ++ line);;
      mret emails
    else
      let possible_email := extract_candidate line in
      log_message (lit "INFO | Processing line " ++ format_nat line_num
                   ++ lit ": " ++ possible_email);;
      if negb (is_valid_email possible_email) then
        log_email_status possible_email (lit "INVALID EMAIL") [];;
        update_stats incr_invalid;;
        mret emails
      else
        seen ← is_processed possible_email;
        if (seen : bool) then
          log_email_status possible_email (lit "DUPLICATE") [];;
          update_stats incr_duplicates;;
          mret emails
        else
          add_processed possible_email;;
          log_message (lit "INFO | Added valid email: " ++ possible_email);;
          mret (emails ++ [possible_email])
  end.

Fixpoint process_lines (line_num : nat) (lines : list (list N))
  (emails : list (list N)) : M (list (list N)) :=
  match lines with
  | [] => mret emails
  | line :: lines' =>
      emails' ← process_line line_num line emails;
      process_lines (S line_num) lines' emails'
  end.

Definition read_emails_from_csv (csv_file : str) (file : file_result)
  : M (list (list N)) :=
  match file with
  | FileLines lines =>
      log_message (lit "INFO | Reading " ++ format_nat (length lines)
                   ++ lit " lines from " ++ csv_file);;
      emails ← process_lines 1 lines [];
      log_message (lit "INFO | Successfully loaded "
                   ++ format_nat (length emails)
                   ++ lit " valid unique emails");;
      mret emails
  | FileNotFound =>
      log_message (lit "ERROR | CSV file '" ++ csv_file ++ lit "' not found");;
      mret []
  | ReadFailure e =>
      log_message (lit "ERROR | Error reading file: " ++ exn_text e);;
      mret []
  end.

(** ** Message construction and dispatch *)

(** The calls into [email.mime], [smtplib] and [time] that a send makes.
    What each does is decided outside the program; the program only sees
    whether the call returns or raises. *)
Inductive smtp_step : Type :=
| MimeText      (* MIMEText(body, 'plain') *)
| Connect       (* smtplib.SMTP(host, port) *)
| StartTLS      (* server.starttls() *)
| Login         (* server.login(username, password) *)
| AsString      (* msg.as_string() *)
| SendMessage   (* server.sendmail(username, recipient, text) *)
| Quit.         (* server.quit() *)

Section Dispatch.

(** The transport: for the session that serves a recipient, whether a step
    raises, and what.  Within a run a recipient is served once, the
    extractor returning no address twice. *)
Variable net : list N → smtp_step → option exn.

(** [time.sleep]: whether it raises on a value instead of suspending (it
    does on a negative number and on a string). *)
Variable time_sleep : value → option exn.

Definition call (recipient : str) (step : smtp_step) : M unit := λ self,
  match net recipient step with
  | None => (Return (), self)
  | Some e => (Raise e, self)
  end.

Definition sleep (seconds : value) : M unit := λ self,
  match time_sleep seconds with
  | None => emit (Slept seconds) self
  | Some e => (Raise e, self)
  end.

Definition create_email_message (recipient : str) : M message :=
  sender_name ← config_get "sender_name";
  username ← config_get "username";
  subject ← config_get "subject";
  body ← config_get "body";
  call recipient MimeText;;
  mret (mkMessage (format_value sender_name ++ lit " <"
                   ++ format_value username ++ lit ">")
                  recipient subject body).

Definition send_single_email (recipient : str) : M bool :=
  try_except
    (msg ← create_email_message recipient;
     _ ← config_get "smtp_host";
     _ ← config_get "smtp_port";
     call recipient Connect;;
     call recipient StartTLS;;
     try_except
       (_ ← config_get "username";
        _ ← config_get "password";
        call recipient Login;;
        call recipient AsString;;
        username ← config_get "username";
        emit (Sendmail username recipient msg);;
        call recipient SendMessage;;
        call recipient Quit;;
        log_email_status recipient (lit "SENT") [];;
        update_stats incr_sent;;
        mret true)
       (λ smtp_error,
          match exn_kind smtp_error with
          | SMTPAuthenticationError =>
              log_email_status recipient (lit "FAILED")
                (lit "Authentication Failed - Check credentials");;
              update_stats incr_failed;;
              mret false
          | SMTPConnectError =>
              log_email_status recipient (lit "FAILED")
                (lit "Connection Error");;
              update_stats incr_failed;;
              mret false
          | OtherException =>
              log_email_status recipient (lit "FAILED")
                (lit "SMTP Error: " ++ exn_text smtp_error);;
              update_stats incr_failed;;
              mret false
          end))
    (λ e,
       log_email_status recipient (lit "FAILED") (exn_text e);;
       update_stats incr_failed;;
       mret false).

Definition print_summary : M unit :=
  log_message (lit "INFO | === Email Sending Process Completed ===");;
  log_message (lit "INFO | SUMMARY:");;
  st ← (λ self, (Return (stats self), self));
  log_message (lit "INFO | Total emails processed: " ++ format_nat (total st));;
  log_message (lit "INFO | Successfully sent: " ++ format_nat (sent st));;
  log_message (lit "INFO | Failed sends: " ++ format_nat (failed st));;
  log_message (lit "INFO | Invalid emails: " ++ format_nat (invalid st));;
  log_message (lit "INFO | Duplicate emails: "
               ++ format_nat (duplicates st)).

(** The [for i, email in enumerate(emails, 1)] loop over the recipients
    still to serve; [n] is [len(emails)]. *)
Fixpoint dispatch_loop (i n : nat) (emails : list (list N)) : M unit :=
  match emails with
  | [] => mret ()
  | email :: emails' =>
      log_message (lit "INFO | Processing email " ++ format_nat i ++ lit "/"
                   ++ format_nat n ++ lit ": " ++ email);;
      _ ← send_single_email email;
      (if (i <? n)%nat then
         delay ← config_get "delay_seconds";
         log_message (lit "INFO | Waiting " ++ format_value delay
                      ++ lit " seconds before next email...");;
         delay ← config_get "delay_seconds";
         sleep delay
       else mret ());;
      dispatch_loop (S i) n emails'
  end.

Definition send_emails_from_csv (csv_file : str) (file : file_result)
  : M unit :=
  log_message (lit "INFO | === Email Sending Process Started ===");;
  host ← config_get "smtp_host";
  port ← config_get "smtp_port";
  log_message (lit "INFO | Using SMTP Host: " ++ format_value host
               ++ lit ":" ++ format_value port);;
  username ← config_get "username";
  log_message (lit "INFO | Sender: " ++ format_value username);;
  delay ← config_get "delay_seconds";
  log_message (lit "INFO | Delay between emails: " ++ format_value delay
               ++ lit " seconds");;
  try_finally
    (try_except
       (emails ← read_emails_from_csv csv_file file;
        update_stats (set_total (length emails));;
        match emails with
        | [] => log_message (lit "INFO | No valid emails found to process")
        | _ => dispatch_loop 1 (length emails) emails
        end)
       (λ e,
          log_message (lit "ERROR | Critical error during email processing: "
                       ++ exn_text e)))
    print_summary.

End Dispatch.

(** ** Configuration: [load_config] and [__init__] *)

(** The file at [config_file]: absent, or present with what [json.load]
    makes of it, a parse error or the object of the document. *)
Inductive config_file_state : Type :=
| ConfigAbsent
| ConfigPresent (parsed : outcome (gmap string value)).

Section Config.

(** [os.getenv(name)] ([None] for a variable that is not set) and
    [int(text)]. *)
Variable getenv : string → option (list N).
Variable int : list N → outcome Z.

(** [os.getenv(name, default)] *)
Definition getenv_default (name : string) (default : string) : str :=
  match getenv name with
  | Some v => v
  | None => lit default
  end.

Definition load_config (file : config_file_state)
  : outcome (gmap string value) :=
  match file with
  | ConfigPresent (Return config) => Return config
  | ConfigPresent (Raise e) => Raise e
  | ConfigAbsent =>
      let smtp_host := getenv_default "SMTP_HOST" "smtp.gmail.com" in
      match int (getenv_default "SMTP_PORT" "587") with
      | Raise e => Raise e
      | Return smtp_port =>
          let username := getenv_default "SMTP_USERNAME" "dummy@gmail.com" in
          let password := getenv_default "SMTP_PASSWORD" "dummy_password" in
          let sender_name := getenv_default "SENDER_NAME" "Automated Mailer" in
          let subject := getenv_default "EMAIL_SUBJECT" "Your Subject Here" in
          let body :=
            getenv_default "EMAIL_BODY" "Hello, this is an automated message."
          in
          match int (getenv_default "EMAIL_DELAY" "90") with
          | Raise e => Raise e
          | Return delay_seconds =>
              Return (<["smtp_host" := VStr smtp_host]>
                     (<["smtp_port" := VInt smtp_port]>
                     (<["username" := VStr username]>
                     (<["password" := VStr password]>
                     (<["sender_name" := VStr sender_name]>
                     (<["subject" := VStr subject]>
                     (<["body" := VStr body]>
                     (<["delay_seconds" := VInt delay_seconds]> ∅))))))))
          end
      end
  end.

Definition no_stats : Stats := mkStats 0 0 0 0 0.

(** [EmailSender(config_file)] *)
Definition new_EmailSender (file : config_file_state) : outcome EmailSender :=
  match load_config file with
  | Return config => Return (mkEmailSender ∅ no_stats config [])
  | Raise e => Raise e
  end.

End Config.

(** The keys that the configuration documents. *)
Definition required_keys : list string :=
  ["smtp_host"; "smtp_port"; "username"; "password"; "sender_name";
   "subject"; "body"; "delay_seconds"]%string.

(** ** The vocabulary of the specification *)

(** The validation pattern in the specification's words: one or more
    characters of [[A-Za-z0-9._%+-]], then [@], then one or more characters
    of [[A-Za-z0-9.-]], then a literal dot, then two or more letters, with
    nothing before or after. *)
Definition matches_spec_pattern (s : str) : Prop :=
  ∃ local domain tld : list N,
    s = local ++ [AT] ++ domain ++ [DOT] ++ tld
    ∧ local ≠ [] ∧ Forall (λ c, local_char c = true) local
    ∧ domain ≠ [] ∧ Forall (λ c, domain_char c = true) domain
    ∧ (2 ≤ length tld)%nat ∧ Forall (λ c, alpha_char c = true) tld.

(** A string that neither starts nor ends with a quote character. *)
Definition unquoted (s : str) : bool :=
  match head s, last s with
  | Some c, Some c' => negb (is_quote c) && negb (is_quote c')
  | _, _ => true
  end.

(** A line that the extraction loop classifies: not empty once trimmed, and
    not a header. *)
Definition data_line (line : str) : bool :=
  match strip line with
  | [] => false
  | l => negb (is_header l)
  end.

(** The candidate address of a line. *)
Definition candidate_of (line : str) : str := extract_candidate (strip line).

(** The candidates of the lines that are classified, in the order of the
    lines. *)
Definition candidates (lines : list (list N)) : list (list N) :=
  candidate_of <$> filter (λ l, data_line l = true) lines.

(** Every element once, at the place of its first occurrence. *)
Fixpoint first_occurrences (l : list (list N)) : list (list N) :=
  match l with
  | [] => []
  | x :: l' => x :: filter (λ y, y ≠ x) (first_occurrences l')
  end.

(** The valid addresses of the lines that the set [seen] does not hold yet,
    each once, in first-seen order. *)
Definition accepted (seen : gset (list N)) (lines : list (list N))
  : list (list N) :=
  first_occurrences
    (filter (λ c, is_valid_email c = true ∧ c ∉ seen) (candidates lines)).

Definition lines_of (file : file_result) : list (list N) :=
  match file with
  | FileLines lines => lines
  | _ => []
  end.

(** The three classifications of a line, as changes of the counters and of
    the list of addresses. *)
Inductive classification : Type := Invalid | Duplicate | Valid.

Definition classified (c : classification) (line : str)
  (emails : list (list N)) (self : EmailSender)
  (emails' : list (list N)) (self' : EmailSender) : Prop :=
  match c with
  | Invalid =>
      invalid (stats self') = S (invalid (stats self))
      ∧ duplicates (stats self') = duplicates (stats self)
      ∧ emails' = emails
  | Duplicate =>
      invalid (stats self') = invalid (stats self)
      ∧ duplicates (stats self') = S (duplicates (stats self))
      ∧ emails' = emails
  | Valid =>
      invalid (stats self') = invalid (stats self)
      ∧ duplicates (stats self') = duplicates (stats self)
      ∧ emails' = emails ++ [candidate_of line]
  end.

(** The suspensions of a trace, in order. *)
Definition sleeps_of (tr : list event) : list value :=
  omap (λ ev, match ev with Slept v => Some v | _ => None end) tr.

(** The events of serving one recipient: no suspension among them, and the
    last one the status line of the recipient, [SENT] or [FAILED]. *)
Definition served (recipient : str) (tr : list event) : Prop :=
  ∃ (tr0 : list event) (status error_msg : list N),
    tr = tr0 ++ [Logged (status_message recipient status error_msg)]
    ∧ sleeps_of tr0 = []
    ∧ (status = lit "SENT" ∨ status = lit "FAILED").

(** The line logged before a suspension. *)
Definition waiting_message (delay : value) : str :=
  lit "INFO | Waiting " ++ format_value delay
  ++ lit " seconds before next email...".

(** The events of a dispatch loop over the recipients, in the
    specification's words: every recipient is served in turn, and one
    suspension of [delay] follows each recipient except the last. *)
Inductive paced (delay : value) : list (list N) → list event → Prop :=
| paced_none : paced delay [] []
| paced_last recipient tr :
    served recipient tr → paced delay [recipient] tr
| paced_next recipient recipients tr tr' :
    recipients ≠ [] →
    served recipient tr →
    paced delay recipients tr' →
    paced delay (recipient :: recipients)
          (tr ++ [Logged (waiting_message delay); Slept delay] ++ tr').

(** ** Inputs of the examples *)

(** An environment in which no variable is set. *)
Definition no_env : string → option (list N) := λ _, None.

(** [int] on a text of decimal digits.  ([int] also reads a sign, spaces
    around the number and underscores between its digits; the examples need
    none of them, and this stand-in raises on them.) *)
Definition int_of_digits (text : str) : outcome Z :=
  match text with
  | [] => Raise (Exn OtherException (lit "invalid literal for int()"))
  | _ =>
      if forallb is_digit text then
        Return (foldl (λ acc c, acc * 10 + Z.of_N (c - 0x30))%Z 0%Z text)
      else Raise (Exn OtherException (lit "invalid literal for int()"))
  end.

(** [time.sleep] on configuration values: a string and a negative number
    raise, [TypeError] and [ValueError]. *)
Definition sleep_nonnegative (seconds : value) : option exn :=
  match seconds with
  | VStr _ =>
      Some (Exn OtherException
              (lit "'str' object cannot be interpreted as an integer"))
  | VInt z =>
      if (z <? 0)%Z then
        Some (Exn OtherException (lit "sleep length must be non-negative"))
      else None
  end.

(** A configuration file with every documented key. *)
Definition example_config : gmap string value :=
  <["smtp_host" := VStr (lit "smtp.example.com")]>
  (<["smtp_port" := VInt 587]>
  (<["username" := VStr (lit "sender@example.com")]>
  (<["password" := VStr (lit "secret")]>
  (<["sender_name" := VStr (lit "Mailer")]>
  (<["subject" := VStr (lit "Hello")]>
  (<["body" := VStr (lit "Hi there.")]>
  (<["delay_seconds" := VInt 2]> ∅))))))).

(** A configuration file that parses and lacks seven of the eight keys. *)
Definition partial_config : gmap string value :=
  {["smtp_host" := VStr (lit "smtp.example.com")]}.

(** A transport on which every step succeeds. *)
Definition net_up : list N → smtp_step → option exn := λ _ _, None.

(** A transport whose server answers the connection with 421: the
    constructor [smtplib.SMTP(host, port)] raises [SMTPConnectError]. *)
Definition net_refusing : list N → smtp_step → option exn := λ _ step,
  match step with
  | Connect =>
      Some (Exn SMTPConnectError (lit "(421, b'Service not available')"))
  | _ => None
  end.

(** A new [EmailSender] on [example_config]. *)
Definition example_sender : EmailSender :=
  mkEmailSender ∅ no_stats example_config [].

(** A recipient file: two addresses, an empty line, a header, a line with a
    second column, a repeated address and a line that is no address. *)
Definition example_lines : list (list N) :=
  [ln "alice@test.com"; ln ""; ln "Email"; ln "bob@test.com,extra";
   ln "alice@test.com"; ln "not-an-email"].

(** ** Further vocabulary *)

(** [s] occurs in [t] as a contiguous part. *)
Definition part_of (s t : str) : Prop := ∃ a b : list N, t = a ++ s ++ b.

(** The number of occurrences of a character. *)
Definition occurrences (c : char) (s : str) : nat :=
  length (filter (λ x, x = c) s).

(** A line that the extraction loop skips as a header. *)
Definition header_line (line : str) : bool :=
  match strip line with
  | [] => false
  | l => is_header l
  end.

Definition is_logged (ev : event) : bool :=
  match ev with
  | Logged _ => true
  | _ => false
  end.

(** The number of lines that an extraction logs: one for a file that cannot
    be read; for a file that can, the two lines around the loop, one for
    every header and two for every classified line. *)
Definition extraction_log_size (file : file_result) : nat :=
  match file with
  | FileLines lines =>
      2 + length (filter (λ l, header_line l = true) lines)
      + 2 * length (filter (λ l, data_line l = true) lines)
  | _ => 1
  end.

(** A set that holds only addresses that pass the validator. *)
Definition only_valid (seen : gset (list N)) : Prop :=
  ∀ e, e ∈ seen → is_valid_email e = true.

(** The steps of a send in the order [send_single_email] makes them. *)
Definition steps_in_order : list smtp_step :=
  [MimeText; Connect; StartTLS; Login; AsString; SendMessage; Quit].

(** The first step of a session that raises, and what it raises. *)
Fixpoint first_failure_in (session : smtp_step → option exn)
  (steps : list smtp_step) : option (smtp_step * exn) :=
  match steps with
  | [] => None
  | step :: steps' =>
      match session step with
      | Some e => Some (step, e)
      | None => first_failure_in session steps'
      end
  end.

Definition first_failure (session : smtp_step → option exn)
  : option (smtp_step * exn) :=
  first_failure_in session steps_in_order.

(** The steps inside the inner [try] of [send_single_email]. *)
Definition in_inner_try (step : smtp_step) : bool :=
  match step with
  | Login | AsString | SendMessage | Quit => true
  | _ => false
  end.

(** The steps made once [server.sendmail] has been called. *)
Definition after_submission (step : smtp_step) : bool :=
  match step with
  | SendMessage | Quit => true
  | _ => false
  end.

(** The reason logged with [FAILED] for an exception of a step. *)
Definition failure_reason (step : smtp_step) (e : exn) : str :=
  if in_inner_try step then
    match exn_kind e with
    | SMTPAuthenticationError =>
        lit "Authentication Failed - Check credentials"
    | SMTPConnectError => lit "Connection Error"
    | OtherException => lit "SMTP Error: " ++ exn_text e
    end
  else exn_text e.

(** The recipients of the calls of [server.sendmail] in a trace. *)
Definition submitted_to (tr : list event) : list (list N) :=
  omap (λ ev, match ev with Sendmail _ to _ => Some to | _ => None end) tr.

(** The keys that [create_email_message] reads. *)
Definition message_keys : list string :=
  ["sender_name"; "username"; "subject"; "body"]%string.

(** The keys that [send_emails_from_csv] reads before its [try]. *)
Definition run_keys : list string :=
  ["smtp_host"; "smtp_port"; "username"; "delay_seconds"]%string.

(** The lines that [print_summary] logs for the counters. *)
Definition summary_lines (st : Stats) : list event :=
  [Logged (lit "INFO | === Email Sending Process Completed ===");
   Logged (lit "INFO | SUMMARY:");
   Logged (lit "INFO | Total emails processed: " ++ format_nat (total st));
   Logged (lit "INFO | Successfully sent: " ++ format_nat (sent st));
   Logged (lit "INFO | Failed sends: " ++ format_nat (failed st));
   Logged (lit "INFO | Invalid emails: " ++ format_nat (invalid st));
   Logged (lit "INFO | Duplicate emails: " ++ format_nat (duplicates st))].

(** The configuration of an environment in which no variable is set: the
    defaults written in [load_config]. *)
Definition default_config : gmap string value :=
  <["smtp_host" := VStr (lit "smtp.gmail.com")]>
  (<["smtp_port" := VInt 587]>
  (<["username" := VStr (lit "dummy@gmail.com")]>
  (<["password" := VStr (lit "dummy_password")]>
  (<["sender_name" := VStr (lit "Automated Mailer")]>
  (<["subject" := VStr (lit "Your Subject Here")]>
  (<["body" := VStr (lit "Hello, this is an automated message.")]>
  (<["delay_seconds" := VInt 90]> ∅))))))).

(** ** The command line: [main] of [main.py] *)

(** What [input(...)] gives: the line typed, or [EOFError], or
    [KeyboardInterrupt]. *)
Inductive prompt_result : Type :=
| Answer (text : str)
| EndOfInput
| Interrupt.

(** What [main] finds around it: [sys.argv], [os.path.exists], the
    configuration file and the recipient file at a path, and the answer to
    the confirmation. *)
Record world : Type := World {
  argv : list (list N);
  path_exists : list N → bool;
  config_at : list N → config_file_state;
  recipients_at : list N → file_result;
  prompt : prompt_result
}.

(** [sys.argv[1]] and [sys.argv[2]] when given, else the default paths. *)
Definition csv_file_of (args : list (list N)) : str :=
  match args with
  | _ :: csv_file :: _ => csv_file
  | _ => lit "emails.csv"
  end.

Definition config_file_of (args : list (list N)) : str :=
  match args with
  | _ :: _ :: config_file :: _ => config_file
  | _ => lit "config.json"
  end.

(** The keys that [main] prints before it asks. *)
Definition display_keys : list string :=
  ["smtp_host"; "smtp_port"; "username"; "subject"; "delay_seconds"]%string.

(** The prints of the configuration: each reads [sender.config[key]]. *)
Definition show_configuration : M unit :=
  _ ← config_get "smtp_host";
  _ ← config_get "smtp_port";
  _ ← config_get "username";
  _ ← config_get "subject";
  _ ← config_get "delay_seconds";
  mret ().

(** [response == 'y' or response == 'yes'] for
    [response = input(...).lower().strip()].  As for the header test, no
    code point outside A to Z has y, e or s as its lower case. *)
Definition confirmed (text : str) : bool :=
  let response := strip (lower text) in
  str_eqb response (lit "y") || str_eqb response (lit "yes").

Section Main.

Variable getenv : string → option (list N).
Variable int : list N → outcome Z.
Variable net : list N → smtp_step → option exn.
Variable time_sleep : value → option exn.

(** [main()]: the exit status of the process (1 after [sys.exit(1)], 0 when
    [main] returns) and the [EmailSender], when one was made, as [main]
    leaves it. *)
Definition main (w : world) : nat * option EmailSender :=
  let csv_file := csv_file_of (argv w) in
  let config_file := config_file_of (argv w) in
  if negb (path_exists w csv_file) then (1%nat, None)
  else
    match new_EmailSender getenv int (config_at w config_file) with
    | Raise _ => (1%nat, None)
    | Return sender =>
        match show_configuration sender with
        | (Raise _, sender) => (1%nat, Some sender)
        | (Return _, sender) =>
            match prompt w with
            | Interrupt => (0%nat, Some sender)
            | EndOfInput => (1%nat, Some sender)
            | Answer text =>
                if confirmed text then
                  match send_emails_from_csv net time_sleep csv_file
                          (recipients_at w csv_file) sender with
                  | (Return _, sender) => (0%nat, Some sender)
                  | (Raise _, sender) => (1%nat, Some sender)
                  end
                else (0%nat, Some sender)
            end
        end
    end.

End Main.

(** A command line without arguments, with both files in place, answered
    as given. *)
Definition example_world (answer : prompt_result) : world :=
  World [lit "main.py"] (λ _, true)
        (λ _, ConfigPresent (Return example_config))
        (λ _, FileLines example_lines) answer.

(** [example_config] with a delay that [time.sleep] refuses. *)
Definition negative_delay_config : gmap string value :=
  <["delay_seconds" := VInt (-1)]> example_config.

(** * Properties *)

(** ** Stripping *)

Section StripFacts.

Variable p : N → bool.

Lemma lstrip_all (q : list N) (s : list N) :
  Forall (λ c, p c = true) q → lstrip p (q ++ s) = lstrip p s.
Proof.
  induction 1 as [|c q Hc _ IH]; simpl; [done|]. by rewrite Hc.
Qed.

Lemma lstrip_fixed (s : list N) :
  (∀ c, head s = Some c → p c = false) → lstrip p s = s.
Proof.
  destruct s as [|c s]; simpl; [done|]. intros H. by rewrite (H c eq_refl).
Qed.

Lemma lstrip_split (s : list N) :
  ∃ q, s = q ++ lstrip p s ∧ Forall (λ c, p c = true) q.
Proof.
  induction s as [|c s (q & Hq & Hall)]; simpl.
  - by exists [].
  - destruct (p c) eqn:Hc.
    + exists (c :: q). split; [simpl; by rewrite <- Hq | by constructor].
    + by exists [].
Qed.

Lemma lstrip_head (s : list N) c : head (lstrip p s) = Some c → p c = false.
Proof.
  induction s as [|x s IH]; simpl; [done|].
  destruct (p x) eqn:Hx; [done|]. simpl. by intros [= <-].
Qed.

Lemma rstrip_all (q : list N) (s : list N) :
  Forall (λ c, p c = true) q → rstrip p (s ++ q) = rstrip p s.
Proof.
  intros Hq. unfold rstrip. rewrite reverse_app, lstrip_all; [done|].
  by apply Forall_reverse.
Qed.

Lemma rstrip_fixed (s : list N) :
  (∀ c, last s = Some c → p c = false) → rstrip p s = s.
Proof.
  intros H. unfold rstrip. rewrite lstrip_fixed.
  - apply reverse_involutive.
  - intros c Hc. apply H. by rewrite <- head_reverse.
Qed.

Lemma rstrip_split (s : list N) :
  ∃ q, s = rstrip p s ++ q ∧ Forall (λ c, p c = true) q.
Proof.
  destruct (lstrip_split (reverse s)) as (q & Hq & Hall).
  exists (reverse q). split; [|by apply Forall_reverse].
  unfold rstrip. rewrite <- reverse_app, <- Hq. by rewrite reverse_involutive.
Qed.

Lemma rstrip_last (s : list N) c : last (rstrip p s) = Some c → p c = false.
Proof.
  unfold rstrip. rewrite last_reverse. apply lstrip_head.
Qed.

(** Stripping removes every leading and trailing character of the set, and
    nothing else. *)
Lemma strip_chars_wrapped (q1 body q2 : list N) :
  Forall (λ c, p c = true) q1 → Forall (λ c, p c = true) q2 →
  (∀ c, head body = Some c → p c = false) →
  (∀ c, last body = Some c → p c = false) →
  strip_chars p (q1 ++ body ++ q2) = body.
Proof.
  intros H1 H2 Hh Hl. unfold strip_chars.
  rewrite lstrip_all; [|done].
  destruct body as [|b body].
  - simpl. rewrite <- (app_nil_r q2), lstrip_all by done. done.
  - rewrite lstrip_fixed; [|intros c; simpl; intros [= <-]; by apply Hh].
    rewrite rstrip_all; [|done]. by apply rstrip_fixed.
Qed.

Lemma strip_chars_split (s : list N) :
  ∃ q1 q2, s = q1 ++ strip_chars p s ++ q2
           ∧ Forall (λ c, p c = true) q1 ∧ Forall (λ c, p c = true) q2.
Proof.
  destruct (lstrip_split s) as (q1 & H1 & Hq1).
  destruct (rstrip_split (lstrip p s)) as (q2 & H2 & Hq2).
  exists q1, q2. split; [|done]. unfold strip_chars. by rewrite <- H2.
Qed.

Lemma strip_chars_last (s : list N) c :
  last (strip_chars p s) = Some c → p c = false.
Proof. apply rstrip_last. Qed.

Lemma strip_chars_head (s : list N) c :
  head (strip_chars p s) = Some c → p c = false.
Proof.
  unfold strip_chars. intros Hc.
  destruct (rstrip_split (lstrip p s)) as (q & Hq & _).
  apply (lstrip_head s). rewrite Hq.
  destruct (rstrip p (lstrip p s)); [done|]. done.
Qed.

End StripFacts.

(** ** The derivative matcher decides the language of a pattern *)

Lemma lang_void_iff s : lang Void s ↔ False.
Proof. split; inversion 1. Qed.

Lemma lang_eps_iff s : lang Eps s ↔ s = [].
Proof. split; [by inversion 1 | intros ->; constructor]. Qed.

Lemma lang_charset (p : N → bool) s :
  lang (CharSet p) s ↔ ∃ c, s = [c] ∧ p c = true.
Proof.
  split.
  - inversion 1; subst. eauto.
  - intros (c & -> & Hc). by constructor.
Qed.

Lemma lang_cat_iff r1 r2 s :
  lang (Cat r1 r2) s ↔ ∃ s1 s2, s = s1 ++ s2 ∧ lang r1 s1 ∧ lang r2 s2.
Proof.
  split.
  - inversion 1; subst. eauto.
  - intros (s1 & s2 & -> & H1 & H2). by constructor.
Qed.

Lemma lang_alt_iff r1 r2 s : lang (Alt r1 r2) s ↔ lang r1 s ∨ lang r2 s.
Proof.
  split.
  - inversion 1; subst; eauto.
  - intros [H|H]; [by apply lang_alt_l | by apply lang_alt_r].
Qed.

Lemma nullable_lang r : nullable r = true ↔ lang r [].
Proof.
  induction r as [| |p|r1 IH1 r2 IH2|r1 IH1 r2 IH2|r IH]; simpl.
  - rewrite lang_void_iff. split; [done|tauto].
  - by rewrite lang_eps_iff.
  - rewrite lang_charset. split; [done|]. by intros (c & ? & _).
  - rewrite andb_true_iff, IH1, IH2, lang_cat_iff. split.
    + intros [H1 H2]. by exists [], [].
    + intros (s1 & s2 & Heq & H1 & H2).
      symmetry in Heq. apply app_eq_nil in Heq as [-> ->]. done.
  - by rewrite orb_true_iff, IH1, IH2, lang_alt_iff.
  - split; [constructor|done].
Qed.

Lemma lang_cat_cons r1 r2 c s :
  lang (Cat r1 r2) (c :: s) ↔
  (∃ s1 s2, s = s1 ++ s2 ∧ lang r1 (c :: s1) ∧ lang r2 s2)
  ∨ (lang r1 [] ∧ lang r2 (c :: s)).
Proof.
  rewrite lang_cat_iff. split.
  - intros (s1 & s2 & Heq & H1 & H2).
    destruct s1 as [|x s1]; simpl in Heq.
    + right. by subst.
    + left. injection Heq as -> ->. by exists s1, s2.
  - intros [(s1 & s2 & -> & H1 & H2)|[H1 H2]].
    + by exists (c :: s1), s2.
    + by exists [], (c :: s).
Qed.

Lemma lang_star_cons r c s :
  lang (Star r) (c :: s) ↔
  ∃ s1 s2, s = s1 ++ s2 ∧ lang r (c :: s1) ∧ lang (Star r) s2.
Proof.
  split.
  - intros H. remember (Star r) as r' eqn:Hr. remember (c :: s) as t eqn:Ht.
    revert Hr Ht.
    induction H as [| | | | | |r0 s1 s2 H1 _ H2 IH2]; try discriminate.
    intros [= ->] Ht. destruct s1 as [|x s1]; simpl in Ht.
    + by apply IH2.
    + injection Ht as -> <-. by exists s1, s2.
  - intros (s1 & s2 & -> & H1 & H2). by apply (lang_star_app _ (c :: s1) s2).
Qed.

Lemma deriv_lang c r : ∀ s, lang (deriv c r) s ↔ lang r (c :: s).
Proof.
  induction r as [| |p|r1 IH1 r2 IH2|r1 IH1 r2 IH2|r IH]; intros s; simpl.
  - by rewrite !lang_void_iff.
  - rewrite lang_void_iff, lang_eps_iff. split; [tauto|done].
  - rewrite lang_charset. destruct (p c) eqn:Hp.
    + rewrite lang_eps_iff. split.
      * intros ->. eauto.
      * by intros (c' & [= <- ->] & _).
    + rewrite lang_void_iff. split; [tauto|].
      intros (c' & [= <- ->] & Hc). congruence.
  - rewrite lang_cat_cons. destruct (nullable r1) eqn:Hn.
    + rewrite lang_alt_iff, lang_cat_iff, IH2.
      apply nullable_lang in Hn. split.
      * intros [(s1 & s2 & -> & H1 & H2)|H]; [left|right; done].
        exists s1, s2. by rewrite <- IH1.
      * intros [(s1 & s2 & -> & H1 & H2)|[_ H]]; [left|right; done].
        exists s1, s2. by rewrite IH1.
    + rewrite lang_cat_iff. split.
      * intros (s1 & s2 & -> & H1 & H2). left.
        exists s1, s2. by rewrite <- IH1.
      * intros [(s1 & s2 & -> & H1 & H2)|[H1 _]].
        -- exists s1, s2. by rewrite IH1.
        -- apply nullable_lang in H1. congruence.
  - by rewrite !lang_alt_iff, IH1, IH2.
  - rewrite lang_star_cons, lang_cat_iff. split.
    + intros (s1 & s2 & -> & H1 & H2). exists s1, s2. by rewrite <- IH.
    + intros (s1 & s2 & -> & H1 & H2). exists s1, s2. by rewrite IH.
Qed.

Lemma re_fullmatch_lang s : ∀ r, re_fullmatch r s = true ↔ lang r s.
Proof.
  induction s as [|c s IH]; intros r; simpl.
  - apply nullable_lang.
  - rewrite IH. apply deriv_lang.
Qed.

Lemma lang_star_charset (p : N → bool) s :
  lang (Star (CharSet p)) s ↔ Forall (λ c, p c = true) s.
Proof.
  split.
  - induction s as [|c s IH]; [constructor|].
    rewrite lang_star_cons. intros (s1 & s2 & -> & H1 & H2).
    apply lang_charset in H1 as (c' & [= -> ->] & Hc).
    constructor; [done|]. by apply IH.
  - induction 1 as [|c s Hc _ IH]; [constructor|].
    apply (lang_star_app _ [c] s); [by constructor | done].
Qed.

Lemma lang_plus_charset (p : N → bool) s :
  lang (Plus (CharSet p)) s ↔ s ≠ [] ∧ Forall (λ c, p c = true) s.
Proof.
  unfold Plus. rewrite lang_cat_iff. split.
  - intros (s1 & s2 & -> & H1 & H2).
    apply lang_charset in H1 as (c & -> & Hc).
    split; [done|]. constructor; [done | by apply lang_star_charset].
  - intros [Hne Hall]. destruct Hall as [|c s Hc Hall]; [done|].
    exists [c], s. repeat split; [by constructor | by apply lang_star_charset].
Qed.

Lemma lang_at_least2_charset (p : N → bool) s :
  lang (AtLeast2 (CharSet p)) s ↔
  (2 ≤ length s)%nat ∧ Forall (λ c, p c = true) s.
Proof.
  unfold AtLeast2. rewrite lang_cat_iff. split.
  - intros (s1 & s2 & -> & H1 & H2).
    apply lang_charset in H1 as (c & -> & Hc).
    apply (lang_plus_charset p s2) in H2 as [Hne Hall].
    split; [destruct s2; [done | simpl; lia] | by constructor].
  - intros [Hlen Hall]. destruct Hall as [|c s Hc Hall]; [simpl in Hlen; lia|].
    exists [c], s. repeat split; [by constructor|].
    apply (lang_plus_charset p s). split; [|done].
    destruct s; [simpl in Hlen; lia | done].
Qed.

Lemma lang_chr c s : lang (Chr c) s ↔ s = [c].
Proof.
  unfold Chr. rewrite lang_charset. split.
  - intros (c' & -> & Hc). apply N.eqb_eq in Hc. by subst.
  - intros ->. exists c. split; [done | apply N.eqb_refl].
Qed.

(** With the [$] of [re], a string matches when it, or what precedes its
    final line feed, is in the language. *)
Lemma re_match_anchored_lang r s :
  re_match_anchored r s = true ↔ lang r s ∨ ∃ s', s = s' ++ [LF] ∧ lang r s'.
Proof.
  unfold re_match_anchored. rewrite re_fullmatch_lang, lang_cat_iff. split.
  - intros (s1 & s2 & -> & H1 & H2).
    apply lang_alt_iff in H2 as [H2|H2].
    + apply lang_eps_iff in H2 as ->. left. by rewrite app_nil_r.
    + apply lang_chr in H2 as ->. right. eauto.
  - intros [H|(s' & -> & H)].
    + exists s, []. rewrite app_nil_r. repeat split; [done|].
      apply lang_alt_l. constructor.
    + exists s', [LF]. repeat split; [done|].
      apply lang_alt_r. by apply lang_chr.
Qed.

(** ** Validation *)





Lemma lang_email_pattern s : lang email_pattern s ↔ matches_spec_pattern s.
Proof.
  unfold email_pattern, matches_spec_pattern. split.
  - intros H.
    apply lang_cat_iff in H as (local & s1 & -> & Hlocal & H).
    apply lang_cat_iff in H as (at_ & s2 & -> & Hat & H).
    apply lang_cat_iff in H as (domain & s3 & -> & Hdomain & H).
    apply lang_cat_iff in H as (dot & tld & -> & Hdot & Htld).
    apply lang_chr in Hat as ->. apply lang_chr in Hdot as ->.
    apply lang_plus_charset in Hlocal as [? ?].
    apply lang_plus_charset in Hdomain as [? ?].
    apply lang_at_least2_charset in Htld as [? ?].
    by exists local, domain, tld.
  - intros (local & domain & tld & -> & ? & ? & ? & ? & ? & ?).
    apply lang_cat; [by apply lang_plus_charset|].
    apply lang_cat; [by apply lang_chr|].
    apply lang_cat; [by apply lang_plus_charset|].
    apply lang_cat; [by apply lang_chr|].
    by apply lang_at_least2_charset.
Qed.


Lemma strip_not_ends_with_LF s s' : strip s ≠ s' ++ [LF].
Proof.
  intros Heq.
  assert (Hlast : last (strip s) = Some LF) by (rewrite Heq; apply last_snoc).
  apply strip_chars_last in Hlast. done.
Qed.

Lemma is_valid_email_lang email :
  is_valid_email email = true ↔ lang email_pattern (strip email).
Proof.
  unfold is_valid_email. rewrite re_match_anchored_lang. split; [|tauto].
  intros [H|(s' & Heq & _)]; [done|]. by apply strip_not_ends_with_LF in Heq.
Qed.


(** C4, as the code has it: the validator accepts a candidate exactly when
    the candidate without its leading and trailing white space matches the
    anchored pattern: one or more characters of [[A-Za-z0-9._%+-]], [@], one
    or more characters of [[A-Za-z0-9.-]], a dot, two or more letters. *)
Theorem is_valid_email_iff_stripped_matches (email : list N) :
  is_valid_email email = true ↔ matches_spec_pattern (strip email).
Proof.
  rewrite is_valid_email_lang. apply lang_email_pattern.
Qed.

(** C4 as stated fails: an address with a leading space is accepted although
    it does not match the anchored pattern. *)
Lemma is_valid_email_accepts_leading_space :
  ¬ (is_valid_email (lit " a@b.com") = true
     ↔ matches_spec_pattern (lit " a@b.com")).
Proof.
  intros [H _].
  assert (Hv : is_valid_email (lit " a@b.com") = true) by (vm_compute; done).
  apply H, lang_email_pattern, re_fullmatch_lang in Hv.
  vm_compute in Hv. discriminate.
Qed.

(** ** Extraction *)

Lemma sleeps_of_app tr1 tr2 :
  sleeps_of (tr1 ++ tr2) = sleeps_of tr1 ++ sleeps_of tr2.
Proof. apply omap_app. Qed.

Ltac run_M :=
  unfold mbind, M_bind, mret, M_ret, log_email_status, log_message, emit,
    update_stats, is_processed, add_processed; simpl.

Lemma process_line_skipped n line emails self :
  data_line line = false →
  ∃ tr, process_line n line emails self
        = (Return emails,
           mkEmailSender (processed_emails self) (stats self) (config self)
                         (trace self ++ tr))
        ∧ sleeps_of tr = [].
Proof.
  unfold data_line, process_line. intros H.
  destruct (strip line) as [|c l] eqn:Hl.
  - exists []. rewrite app_nil_r. by destruct self.
  - apply negb_false_iff in H. rewrite H. run_M. by eexists.
Qed.

Lemma process_line_classified n line emails self :
  data_line line = true →
  ∃ tr, sleeps_of tr = [] ∧
    process_line n line emails self =
      if is_valid_email (candidate_of line) then
        if bool_decide (candidate_of line ∈ processed_emails self) then
          (Return emails,
           mkEmailSender (processed_emails self) (incr_duplicates (stats self))
                         (config self) (trace self ++ tr))
        else
          (Return (emails ++ [candidate_of line]),
           mkEmailSender ({[candidate_of line]} ∪ processed_emails self)
                         (stats self) (config self) (trace self ++ tr))
      else
        (Return emails,
         mkEmailSender (processed_emails self) (incr_invalid (stats self))
                       (config self) (trace self ++ tr)).
Proof.
  unfold data_line, process_line, candidate_of. intros H.
  destruct (strip line) as [|c l] eqn:Hl; [done|].
  apply negb_true_iff in H. rewrite H.
  destruct (is_valid_email (extract_candidate (c :: l))) eqn:Hv; run_M.
  - destruct (bool_decide _) eqn:Hd; run_M.
    + eexists. split; [|by rewrite <- !app_assoc]. done.
    + eexists. split; [|by rewrite <- !app_assoc]. done.
  - eexists. split; [|by rewrite <- !app_assoc]. done.
Qed.

(** ** First-seen order *)

Lemma first_occurrences_filter (Q : list N → Prop) `{∀ x, Decision (Q x)} l :
  first_occurrences (filter Q l) = filter Q (first_occurrences l).
Proof.
  induction l as [|x l IH]; [done|]. simpl.
  destruct (decide (Q x)) as [Hq|Hq].
  - rewrite (filter_cons_True Q x l), (filter_cons_True Q x _) by done.
    simpl. f_equal.
    rewrite IH, !list_filter_filter. apply list_filter_iff. naive_solver.
  - rewrite (filter_cons_False Q x l), (filter_cons_False Q x _) by done.
    rewrite IH, list_filter_filter.
    apply list_filter_iff. intros y. split; [|naive_solver].
    intros Hy. split; [done|]. by intros ->.
Qed.

Lemma elem_of_first_occurrences l x : x ∈ first_occurrences l ↔ x ∈ l.
Proof.
  induction l as [|y l IH]; [done|]. simpl.
  rewrite !elem_of_cons, list_elem_of_filter, IH.
  destruct (decide (x = y)); naive_solver.
Qed.

Lemma NoDup_first_occurrences l : NoDup (first_occurrences l).
Proof.
  induction l as [|x l IH]; simpl; [constructor|].
  constructor; [|by apply NoDup_filter].
  rewrite list_elem_of_filter. naive_solver.
Qed.

Lemma candidates_cons line lines :
  candidates (line :: lines)
  = if data_line line then candidate_of line :: candidates lines
    else candidates lines.
Proof.
  unfold candidates. destruct (data_line line) eqn:Hd.
  - by rewrite filter_cons_True.
  - rewrite filter_cons_False; [done|]. by rewrite Hd.
Qed.

Lemma accepted_skip seen line lines :
  data_line line = false → accepted seen (line :: lines) = accepted seen lines.
Proof. intros H. unfold accepted. by rewrite candidates_cons, H. Qed.

Lemma accepted_rejected seen line lines :
  data_line line = true →
  ¬ (is_valid_email (candidate_of line) = true ∧ candidate_of line ∉ seen) →
  accepted seen (line :: lines) = accepted seen lines.
Proof.
  intros H Hn. unfold accepted. rewrite candidates_cons, H.
  by rewrite filter_cons_False.
Qed.

Lemma accepted_new seen line lines :
  data_line line = true →
  is_valid_email (candidate_of line) = true → candidate_of line ∉ seen →
  accepted seen (line :: lines)
  = candidate_of line :: accepted ({[candidate_of line]} ∪ seen) lines.
Proof.
  intros H Hv Hs. unfold accepted. rewrite candidates_cons, H.
  rewrite filter_cons_True by done. simpl. f_equal.
  rewrite <- first_occurrences_filter, list_filter_filter.
  f_equal. apply list_filter_iff. intros y. set_solver.
Qed.

Lemma length_first_occurrences l :
  (length (first_occurrences l) ≤ length l)%nat.
Proof.
  induction l as [|x l IH]; simpl; [done|].
  pose proof (length_filter (λ y, y ≠ x) (first_occurrences l)). lia.
Qed.

Lemma length_accepted seen lines :
  (length (accepted seen lines)
   ≤ length (filter (λ c, is_valid_email c = true) (candidates lines)))%nat.
Proof.
  unfold accepted. etrans; [apply length_first_occurrences|].
  rewrite <- (list_filter_filter_l (λ c, is_valid_email c = true ∧ c ∉ seen)
                (λ c, is_valid_email c = true)) by tauto.
  apply length_filter.
Qed.

(** What the extraction loop does to the object, but for the log. *)
Lemma process_lines_spec lines : ∀ n emails self,
  ∃ tr,
    sleeps_of tr = []
    ∧ process_lines n lines emails self
      = (Return (emails ++ accepted (processed_emails self) lines),
         mkEmailSender
           (list_to_set (accepted (processed_emails self) lines)
            ∪ processed_emails self)
           (mkStats (total (stats self)) (sent (stats self))
              (failed (stats self))
              (invalid (stats self)
               + length (filter (λ c, is_valid_email c = false)
                           (candidates lines)))
              (duplicates (stats self)
               + (length (filter (λ c, is_valid_email c = true)
                            (candidates lines))
                  - length (accepted (processed_emails self) lines))))
           (config self) (trace self ++ tr)).
Proof.
  induction lines as [|line lines IH]; intros n emails self; simpl.
  - exists []. split; [done|]. unfold accepted, candidates. simpl.
    rewrite !app_nil_r, !Nat.add_0_r, union_empty_l_L.
    by destruct self as [? []].
  - unfold mbind, M_bind. destruct (data_line line) eqn:Hd.
    + destruct (process_line_classified n line emails self Hd)
        as (tr1 & Hs1 & ->).
      rewrite candidates_cons, Hd.
      destruct (is_valid_email (candidate_of line)) eqn:Hv.
      * rewrite (filter_cons_False (λ c, is_valid_email c = false))
          by congruence.
        rewrite (filter_cons_True (λ c, is_valid_email c = true)) by done.
        destruct (bool_decide _) eqn:Hin.
        -- apply bool_decide_eq_true in Hin.
           edestruct IH as (tr2 & Hs2 & ->). simpl.
           rewrite accepted_rejected by tauto.
           exists (tr1 ++ tr2). split; [by rewrite sleeps_of_app, Hs1, Hs2|].
           rewrite <- app_assoc. do 3 f_equal. simpl.
           pose proof (length_accepted (processed_emails self) lines). lia.
        -- apply bool_decide_eq_false in Hin.
           edestruct IH as (tr2 & Hs2 & ->). simpl.
           rewrite accepted_new by done.
           exists (tr1 ++ tr2). split; [by rewrite sleeps_of_app, Hs1, Hs2|].
           rewrite <- !app_assoc. simpl.
           do 2 f_equal. set_solver.
      * rewrite (filter_cons_True (λ c, is_valid_email c = false)) by done.
        rewrite (filter_cons_False (λ c, is_valid_email c = true))
          by congruence.
        edestruct IH as (tr2 & Hs2 & ->). simpl.
        rewrite accepted_rejected by (try done; intros [? _]; congruence).
        exists (tr1 ++ tr2). split; [by rewrite sleeps_of_app, Hs1, Hs2|].
        rewrite <- app_assoc. do 3 f_equal. simpl. lia.
    + destruct (process_line_skipped n line emails self Hd) as (tr1 & -> & Hs1).
      edestruct IH as (tr2 & Hs2 & ->). simpl.
      rewrite candidates_cons, Hd, accepted_skip by done.
      exists (tr1 ++ tr2). split; [by rewrite sleeps_of_app, Hs1, Hs2|].
      by rewrite <- app_assoc.
Qed.

Lemma read_emails_from_csv_spec csv_file file self :
  ∃ tr,
    sleeps_of tr = []
    ∧ read_emails_from_csv csv_file file self
      = (Return (accepted (processed_emails self) (lines_of file)),
         mkEmailSender
           (list_to_set (accepted (processed_emails self) (lines_of file))
            ∪ processed_emails self)
           (mkStats (total (stats self)) (sent (stats self))
              (failed (stats self))
              (invalid (stats self)
               + length (filter (λ c, is_valid_email c = false)
                           (candidates (lines_of file))))
              (duplicates (stats self)
               + (length (filter (λ c, is_valid_email c = true)
                            (candidates (lines_of file)))
                  - length (accepted (processed_emails self)
                              (lines_of file)))))
           (config self) (trace self ++ tr)).
Proof.
  destruct file as [|e|lines]; simpl.
  - eexists. split; [|run_M; unfold accepted, candidates; simpl;
                      rewrite !Nat.add_0_r, union_empty_l_L;
                      by destruct self as [? []]].
    done.
  - eexists. split; [|run_M; unfold accepted, candidates; simpl;
                      rewrite !Nat.add_0_r, union_empty_l_L;
                      by destruct self as [? []]].
    done.
  - unfold mbind, M_bind. unfold log_message at 1. unfold emit at 1.
    edestruct (process_lines_spec lines) as (tr & Hs & ->). simpl.
    run_M. eexists. split; [|by rewrite <- !app_assoc].
    simpl. by rewrite sleeps_of_app, Hs.
Qed.

(** The valid candidates split into the accepted ones and the rest. *)
Lemma candidates_partition (l : list (list N)) :
  (length (filter (λ c, is_valid_email c = false) l)
   + length (filter (λ c, is_valid_email c = true) l) = length l)%nat.
Proof.
  induction l as [|c l IH]; [done|].
  destruct (is_valid_email c) eqn:Hc.
  - rewrite (filter_cons_False (λ c, is_valid_email c = false)) by congruence.
    rewrite (filter_cons_True (λ c, is_valid_email c = true)) by done.
    simpl. lia.
  - rewrite (filter_cons_True (λ c, is_valid_email c = false)) by done.
    rewrite (filter_cons_False (λ c, is_valid_email c = true)) by congruence.
    simpl. lia.
Qed.

Lemma length_candidates lines :
  length (candidates lines) = length (filter (λ l, data_line l = true) lines).
Proof. unfold candidates. apply length_fmap. Qed.

Lemma Forall_accepted seen lines :
  Forall (λ e, is_valid_email e = true ∧ e ∉ seen) (accepted seen lines).
Proof.
  apply Forall_forall. intros e. unfold accepted.
  rewrite elem_of_first_occurrences, list_elem_of_filter. tauto.
Qed.

Lemma filter_none {A} (Q : A → Prop) `{∀ x, Decision (Q x)} (l : list A) :
  (∀ x, x ∈ l → ¬ Q x) → filter Q l = [].
Proof.
  induction l as [|x l IH]; intros Hl; [done|].
  rewrite filter_cons_False by (apply Hl; left).
  apply IH. intros y Hy. apply Hl. by right.
Qed.

(** Once the accepted addresses are in the set, the same lines yield no
    new address. *)
Lemma accepted_again seen lines :
  accepted (list_to_set (accepted seen lines) ∪ seen) lines = [].
Proof.
  unfold accepted at 1. rewrite filter_none; [done|].
  intros c Hc [Hv Hn]. apply Hn. clear Hn.
  destruct (decide (c ∈ seen)) as [|Hs]; [set_solver|].
  apply elem_of_union_l, elem_of_list_to_set. unfold accepted.
  rewrite elem_of_first_occurrences, list_elem_of_filter. tauto.
Qed.

(** C1: for every input file, [read_emails_from_csv] returns; the addresses
    it returns are pairwise different, each passes the validation check, and
    they are the valid candidates of the classified lines that the object
    has not accepted before, each at the place of its first occurrence
    among the lines. *)
Theorem read_emails_unique_valid_first_seen
  (csv_file : list N) (file : file_result) (self : EmailSender) :
  ∃ emails self',
    read_emails_from_csv csv_file file self = (Return emails, self')
    ∧ NoDup emails
    ∧ Forall (λ e, is_valid_email e = true) emails
    ∧ emails
      = first_occurrences
          (filter (λ c, is_valid_email c = true ∧ c ∉ processed_emails self)
                  (candidates (lines_of file))).
Proof.
  destruct (read_emails_from_csv_spec csv_file file self) as (tr & _ & ->).
  eexists _, _. split; [done|]. split; [apply NoDup_first_occurrences|].
  split; [|done].
  eapply Forall_impl; [apply Forall_accepted|]. simpl. tauto.
Qed.

Lemma classified_unique c1 c2 line emails self emails' self' :
  classified c1 line emails self emails' self' →
  classified c2 line emails self emails' self' → c1 = c2.
Proof.
  destruct c1, c2; simpl; intros (? & ? & ?) (? & ? & ?); (done || lia).
Qed.

(** C2: the loop gives every line that is neither empty nor a header
    exactly one of the classifications Invalid, Duplicate and Valid, a line
    that is empty or a header none; and after the extraction the invalid
    count, the duplicate count and the number of addresses returned add up
    to the number of lines that are neither empty nor a header (on an object
    whose two counts are not 0 at the start, to that number more than
    they were). *)
Theorem every_line_classified_once
  (csv_file : list N) (lines : list (list N)) (self : EmailSender) :
  (∀ n line emails s,
     data_line line = true →
     ∃ emails' s',
       process_line n line emails s = (Return emails', s')
       ∧ ∃ c, classified c line emails s emails' s'
              ∧ ∀ c', classified c' line emails s emails' s' → c' = c)
  ∧ (∀ n line emails s,
       data_line line = false →
       ∃ s',
         process_line n line emails s = (Return emails, s')
         ∧ stats s' = stats s)
  ∧ (∃ emails self',
       read_emails_from_csv csv_file (FileLines lines) self
       = (Return emails, self')
       ∧ (invalid (stats self') + duplicates (stats self') + length emails
          = invalid (stats self) + duplicates (stats self)
            + length (filter (λ l, data_line l = true) lines))%nat)
  ∧ (∃ emails self',
       read_emails_from_csv csv_file (FileLines lines)
         (mkEmailSender (processed_emails self) no_stats (config self)
                        (trace self))
       = (Return emails, self')
       ∧ (invalid (stats self') + duplicates (stats self') + length emails
          = length (filter (λ l, data_line l = true) lines))%nat).
Proof.
  assert (Hsum : ∀ s : EmailSender, ∃ emails self',
    read_emails_from_csv csv_file (FileLines lines) s = (Return emails, self')
    ∧ (invalid (stats self') + duplicates (stats self') + length emails
       = invalid (stats s) + duplicates (stats s)
         + length (filter (λ l, data_line l = true) lines))%nat).
  { intros s.
    destruct (read_emails_from_csv_spec csv_file (FileLines lines) s)
      as (tr & _ & ->).
    eexists _, _. split; [done|]. simpl.
    pose proof (length_accepted (processed_emails s) lines).
    pose proof (candidates_partition (candidates lines)).
    rewrite <- length_candidates. lia. }
  split; [|split; [|split]].
  - intros n line emails s Hd.
    destruct (process_line_classified n line emails s Hd) as (tr & _ & ->).
    destruct (is_valid_email (candidate_of line));
      [destruct (bool_decide _)|]; eexists _, _; (split; [done|]).
    + exists Duplicate. split; [done|]. intros c Hc.
      by apply (classified_unique _ _ _ _ _ _ _ Hc).
    + exists Valid. split; [done|]. intros c Hc.
      by apply (classified_unique _ _ _ _ _ _ _ Hc).
    + exists Invalid. split; [done|]. intros c Hc.
      by apply (classified_unique _ _ _ _ _ _ _ Hc).
  - intros n line emails s Hd.
    destruct (process_line_skipped n line emails s Hd) as (tr & -> & _).
    by eexists.
  - apply Hsum.
  - destruct (Hsum (mkEmailSender (processed_emails self) no_stats
                      (config self) (trace self)))
      as (emails & self' & -> & Heq).
    by exists emails, self'.
Qed.

(** C8: a second extraction from the same source on the same object returns
    no address: every line whose candidate is valid is counted as a
    duplicate, the other classified lines are invalid as before, and the
    set of accepted addresses keeps what it held and only grows. *)
Theorem second_read_yields_only_duplicates
  (csv_file : list N) (file : file_result) (self : EmailSender) :
  ∃ emails self1 self2,
    read_emails_from_csv csv_file file self = (Return emails, self1)
    ∧ read_emails_from_csv csv_file file self1 = (Return [], self2)
    ∧ processed_emails self ⊆ processed_emails self1
    ∧ (∀ e, e ∈ emails → e ∈ processed_emails self1)
    ∧ processed_emails self2 = processed_emails self1
    ∧ (duplicates (stats self2)
       = duplicates (stats self1)
         + length (filter (λ c, is_valid_email c = true)
                     (candidates (lines_of file))))%nat
    ∧ (invalid (stats self2)
       = invalid (stats self1)
         + length (filter (λ c, is_valid_email c = false)
                     (candidates (lines_of file))))%nat.
Proof.
  destruct (read_emails_from_csv_spec csv_file file self) as (tr1 & _ & H1).
  match type of H1 with
  | _ = (_, ?s1) =>
      destruct (read_emails_from_csv_spec csv_file file s1) as (tr2 & _ & H2)
  end.
  simpl in H2. rewrite accepted_again in H2. simpl in H2.
  eexists _, _, _. split; [exact H1|]. split; [exact H2|]. simpl.
  split; [set_solver|]. split; [set_solver|].
  split; [set_solver|]. split; lia.
Qed.



Lemma unquoted_ends (s : list N) :
  unquoted s = true →
  (∀ c, head s = Some c → is_quote c = false)
  ∧ (∀ c, last s = Some c → is_quote c = false).
Proof.
  unfold unquoted. destruct s as [|x s]; [done|].
  destruct (last (x :: s)) as [y|] eqn:Hl; [|by apply last_None in Hl].
  simpl. intros H. apply andb_true_iff in H as [Hx Hy].
  apply negb_true_iff in Hx, Hy. split; intros c [= <-]; done.
Qed.

(** C6, as the code has it: every leading and every trailing quote
    character is stripped before validation, however many there are.  A
    candidate that is a text neither starting nor ending with a quote,
    wrapped in any number of quote characters on either side (one pair, two
    pairs), yields that text. *)
Theorem extract_candidate_strips_every_quote (line q1 body q2 : list N) :
  first_part separators line = q1 ++ body ++ q2 →
  Forall (λ c, is_quote c = true) q1 →
  Forall (λ c, is_quote c = true) q2 →
  unquoted body = true →
  extract_candidate line = body.
Proof.
  intros Hline H1 H2 Hbody. unfold extract_candidate. rewrite Hline.
  apply unquoted_ends in Hbody as [Hh Hl]. by apply strip_chars_wrapped.
Qed.

Lemma extract_candidate_strips_every_quote_witness :
  extract_candidate (lit "''a@b.com''") = lit "a@b.com".
Proof.
  apply (extract_candidate_strips_every_quote
           (lit "''a@b.com''") (lit "''") (lit "a@b.com") (lit "''")).
  - reflexivity.
  - by repeat constructor.
  - by repeat constructor.
  - reflexivity.
Defined.

(** C6 as stated fails: of two layers of quotes none is left. *)
Lemma two_layers_of_quotes_are_both_stripped :
  extract_candidate (lit "''a@b.com''") = lit "a@b.com"
  ∧ extract_candidate (lit "''a@b.com''") ≠ lit "'a@b.com'".
Proof. split; [reflexivity | discriminate]. Qed.

(** C7, as the code has it: a configuration file that exists and parses is
    returned as it was parsed.  When it lacks a documented key, loading
    raises nothing and puts no default in its place; the key is missing
    from the configuration of the new object, and the first read of it
    raises [KeyError]. *)
Theorem load_config_returns_partial_config
  (getenv : string → option (list N)) (int : list N → outcome Z)
  (parsed : gmap string value) (key : string) :
  key ∈ required_keys →
  parsed !! key = None →
  load_config getenv int (ConfigPresent (Return parsed)) = Return parsed
  ∧ new_EmailSender getenv int (ConfigPresent (Return parsed))
    = Return (mkEmailSender ∅ no_stats parsed [])
  ∧ config_get key (mkEmailSender ∅ no_stats parsed [])
    = (Raise (KeyError key), mkEmailSender ∅ no_stats parsed []).
Proof.
  intros _ Hkey. split; [done|]. split; [done|].
  unfold config_get. simpl. by rewrite Hkey.
Qed.

Lemma load_config_returns_partial_config_witness :
  load_config no_env int_of_digits (ConfigPresent (Return partial_config))
  = Return partial_config
  ∧ new_EmailSender no_env int_of_digits
      (ConfigPresent (Return partial_config))
    = Return (mkEmailSender ∅ no_stats partial_config [])
  ∧ config_get "password" (mkEmailSender ∅ no_stats partial_config [])
    = (Raise (KeyError "password"),
       mkEmailSender ∅ no_stats partial_config []).
Proof.
  apply (load_config_returns_partial_config no_env int_of_digits
           partial_config "password").
  - unfold required_keys. set_solver.
  - reflexivity.
Defined.

(** C7 as stated fails: loading a file that has only [smtp_host] raises
    nothing and returns the partial configuration. *)
Lemma load_config_accepts_missing_keys :
  "password" ∈ required_keys
  ∧ partial_config !! "password" = None
  ∧ load_config no_env int_of_digits (ConfigPresent (Return partial_config))
    = Return partial_config
  ∧ ¬ ∃ e, load_config no_env int_of_digits
             (ConfigPresent (Return partial_config)) = Raise e.
Proof.
  split; [unfold required_keys; set_solver|]. split; [reflexivity|].
  split; [reflexivity|]. intros [e He]. discriminate.
Qed.

(** C5 on the code: when [smtplib.SMTP(host, port)] raises
    [SMTPConnectError], the send is counted as failed, and the reason logged
    is the text of the exception, not [Connection Error]: the call stands
    outside the [try] whose handler names that reason. *)
Theorem connect_failure_is_logged_with_exception_text :
  send_single_email net_refusing (lit "a@b.com") example_sender
  = (Return false,
     mkEmailSender ∅ (mkStats 0 0 1 0 0) example_config
       [Logged (lit "a@b.com | FAILED | (421, b'Service not available')")])
  ∧ lit "a@b.com | FAILED | (421, b'Service not available')"
    ≠ status_message (lit "a@b.com") (lit "FAILED") (lit "Connection Error").
Proof. split; [vm_compute; reflexivity | discriminate]. Qed.

(** ** Dispatch *)

Section DispatchFacts.

Variable net : list N → smtp_step → option exn.
Variable time_sleep : value → option exn.

Ltac reduce_M :=
  cbv beta iota zeta;
  cbn [trace processed_emails stats config exn_kind exn_text].

Ltac next_step :=
  match goal with
  | |- context [config ?s !! ?k] => destruct (config s !! k) eqn:?
  | |- context [net ?r ?st] => destruct (net r st) as [[[] ?]|] eqn:?
  end; reduce_M.

Ltac served_leaf :=
  rewrite <- ?app_assoc;
  first [ exists false; eexists; split; [reflexivity|]
        | exists true; eexists; split; [reflexivity|] ];
  first [ exists []; eexists _, _; split; [reflexivity|]
        | eexists _, _, _; split; [reflexivity|] ];
  split; [reflexivity|]; first [by left | by right].

(** A send returns, counts the recipient as sent or as failed, logs its
    status, and never sleeps. *)
Lemma send_single_email_spec recipient self :
  ∃ (b : bool) tr,
    send_single_email net recipient self
    = (Return b,
       mkEmailSender (processed_emails self)
         (if b then incr_sent (stats self) else incr_failed (stats self))
         (config self) (trace self ++ tr))
    ∧ served recipient tr.
Proof.
  unfold send_single_email, create_email_message, try_except, call,
    config_get, served.
  unfold mbind, M_bind, mret, M_ret, log_email_status, log_message, emit,
    update_stats.
  repeat (next_step; try served_leaf).
Qed.

(** A failure of the connecting call reaches the outer handler: the reason
    logged is the text of the exception, whatever its class. *)
Lemma send_single_email_connect_failure recipient self e
  sender_name username subject body host port :
  config self !! "sender_name" = Some sender_name →
  config self !! "username" = Some username →
  config self !! "subject" = Some subject →
  config self !! "body" = Some body →
  config self !! "smtp_host" = Some host →
  config self !! "smtp_port" = Some port →
  net recipient MimeText = None →
  net recipient Connect = Some e →
  send_single_email net recipient self
  = (Return false,
     mkEmailSender (processed_emails self) (incr_failed (stats self))
       (config self)
       (trace self
        ++ [Logged (status_message recipient (lit "FAILED") (exn_text e))])).
Proof.
  intros H1 H2 H3 H4 H5 H6 Hmime Hconnect.
  unfold send_single_email, create_email_message, try_except, call,
    config_get.
  unfold mbind, M_bind, mret, M_ret, log_email_status, log_message, emit,
    update_stats.
  rewrite H1, H2, H3, H4, Hmime. reduce_M.
  rewrite H5, H6, Hconnect. reduce_M. reflexivity.
Qed.

Lemma served_no_sleeps recipient tr : served recipient tr → sleeps_of tr = [].
Proof.
  intros (tr0 & status & reason & -> & H0 & _).
  by rewrite sleeps_of_app, H0.
Qed.

Lemma served_after_log recipient message tr :
  served recipient tr → served recipient (Logged message :: tr).
Proof.
  intros (tr0 & status & reason & -> & H0 & Hs).
  by exists (Logged message :: tr0), status, reason.
Qed.

(** The loop serves every recipient and sleeps between two of them, when
    [time.sleep] accepts the delay or there is no second recipient to sleep
    before. *)
Lemma dispatch_loop_spec delay emails : ∀ i n self,
  config self !! "delay_seconds" = Some delay →
  time_sleep delay = None ∨ (length emails ≤ 1)%nat →
  (i + length emails = S n)%nat →
  ∃ a b tr,
    dispatch_loop net time_sleep i n emails self
    = (Return (),
       mkEmailSender (processed_emails self)
         (mkStats (total (stats self)) (sent (stats self) + a)
            (failed (stats self) + b) (invalid (stats self))
            (duplicates (stats self)))
         (config self) (trace self ++ tr))
    ∧ (a + b = length emails)%nat
    ∧ paced delay emails tr
    ∧ sleeps_of tr = replicate (length emails - 1) delay.
Proof.
  induction emails as [|email emails IH]; intros i n self Hcfg Hsleep Hlen.
  - exists 0%nat, 0%nat, []. cbn.
    rewrite app_nil_r, !Nat.add_0_r. split; [by destruct self as [? []]|].
    split; [done|]. split; [constructor | done].
  - cbn [dispatch_loop]. unfold mbind, M_bind.
    unfold log_message at 1. unfold emit at 1.
    match goal with
    | |- context [send_single_email net email ?s] =>
        destruct (send_single_email_spec email s) as (ok & tr1 & -> & Hserved)
    end.
    cbn [trace processed_emails stats config].
    apply (served_after_log _
             (lit "INFO | Processing email " ++ format_nat i ++ lit "/"
              ++ format_nat n ++ lit ": " ++ email)) in Hserved.
    pose proof (served_no_sleeps _ _ Hserved) as Hquiet.
    destruct emails as [|email' emails].
    + assert ((i <? n)%nat = false) as ->
        by (apply Nat.ltb_ge; cbn in Hlen; lia).
      cbn [dispatch_loop]. unfold mret, M_ret.
      exists (if ok then 1 else 0)%nat, (if ok then 0 else 1)%nat,
             (Logged (lit "INFO | Processing email " ++ format_nat i
                      ++ lit "/" ++ format_nat n ++ lit ": " ++ email)
              :: tr1).
      split; [|split; [by destruct ok|split; [by constructor|done]]].
      rewrite <- app_assoc. cbn.
      destruct ok; unfold incr_sent, incr_failed; do 3 f_equal; lia.
    + assert ((i <? n)%nat = true) as ->
        by (apply Nat.ltb_lt; cbn in Hlen; lia).
      destruct Hsleep as [Hsleep|Hle]; [|cbn in Hle; lia].
      unfold config_get, log_message, emit, sleep.
      cbn [trace processed_emails stats config]. rewrite Hcfg.
      cbn [trace processed_emails stats config]. rewrite Hcfg, Hsleep.
      unfold emit. cbn [trace processed_emails stats config].
      match goal with
      | |- context [dispatch_loop net time_sleep (S i) n _ ?s] =>
          destruct (IH (S i) n s) as (a & b & tr2 & -> & Hab & Hpaced & Hs2);
            [done | by left | cbn in *; lia |]
      end.
      cbn [trace processed_emails stats config].
      exists (if ok then S a else a), (if ok then b else S b),
             ((Logged (lit "INFO | Processing email " ++ format_nat i
                       ++ lit "/" ++ format_nat n ++ lit ": " ++ email)
               :: tr1)
              ++ [Logged (waiting_message delay); Slept delay] ++ tr2).
      split; [|split; [destruct ok; cbn in *; lia|split]].
      * rewrite <- !app_assoc. cbn.
        destruct ok; unfold incr_sent, incr_failed; cbn; do 3 f_equal; lia.
      * by apply paced_next.
      * rewrite !sleeps_of_app, Hquiet, Hs2. cbn. by rewrite Nat.sub_0_r.
Qed.

Lemma print_summary_spec self :
  ∃ tr,
    print_summary self
    = (Return (),
       mkEmailSender (processed_emails self) (stats self) (config self)
                     (trace self ++ tr))
    ∧ sleeps_of tr = [].
Proof.
  unfold print_summary, mbind, M_bind, log_message, emit.
  cbn [trace processed_emails stats config].
  eexists. split; [by rewrite <- !app_assoc|]. done.
Qed.

(** A whole run, given the four keys that it reads outside any handler,
    when no suspension is refused: [time.sleep] accepts the delay, or fewer
    than two addresses are extracted and the run does not sleep. *)
Lemma send_emails_from_csv_spec csv_file file self host port username delay :
  config self !! "smtp_host" = Some host →
  config self !! "smtp_port" = Some port →
  config self !! "username" = Some username →
  config self !! "delay_seconds" = Some delay →
  let emails := accepted (processed_emails self) (lines_of file) in
  time_sleep delay = None ∨ (length emails ≤ 1)%nat →
  ∃ a b before tr after,
    send_emails_from_csv net time_sleep csv_file file self
    = (Return (),
       mkEmailSender
         (list_to_set emails ∪ processed_emails self)
         (mkStats (length emails) (sent (stats self) + a)
            (failed (stats self) + b)
            (invalid (stats self)
             + length (filter (λ c, is_valid_email c = false)
                         (candidates (lines_of file))))
            (duplicates (stats self)
             + (length (filter (λ c, is_valid_email c = true)
                          (candidates (lines_of file)))
                - length emails)))
         (config self) (trace self ++ before ++ tr ++ after))
    ∧ (a + b = length emails)%nat
    ∧ sleeps_of before = []
    ∧ paced delay emails tr
    ∧ sleeps_of tr = replicate (length emails - 1) delay
    ∧ sleeps_of after = [].
Proof.
  intros Hhost Hport Huser Hdelay emails Hsleep.
  unfold send_emails_from_csv, mbind, M_bind.
  unfold log_message at 1 2 3 4. unfold emit, config_get.
  cbn [trace processed_emails stats config].
  rewrite Hhost. cbn [trace processed_emails stats config].
  rewrite Hport. cbn [trace processed_emails stats config].
  rewrite Huser. cbn [trace processed_emails stats config].
  rewrite Hdelay. cbn [trace processed_emails stats config].
  unfold try_finally, try_except, mbind, M_bind.
  match goal with
  | |- context [read_emails_from_csv csv_file file ?s] =>
      destruct (read_emails_from_csv_spec csv_file file s)
        as (tr_read & Hquiet & ->)
  end.
  cbn [trace processed_emails stats config]. fold emails.
  unfold update_stats. cbn [trace processed_emails stats config set_total
                            total sent failed invalid duplicates].
  clearbody emails. destruct emails as [|email emails'].
  - unfold log_message, emit. cbn [trace processed_emails stats config].
    match goal with
    | |- context [print_summary ?s] =>
        destruct (print_summary_spec s) as (tr_sum & -> & Hsum)
    end.
    cbn [trace processed_emails stats config].
    lazymatch goal with
    | |- context [((((((trace self ++ ?l1) ++ ?l2) ++ ?l3) ++ ?l4) ++ tr_read)
                   ++ ?l5) ++ tr_sum] =>
        exists 0%nat, 0%nat, (l1 ++ l2 ++ l3 ++ l4 ++ tr_read ++ l5), [],
               tr_sum
    end.
    split; [by rewrite !Nat.add_0_r, <- !app_assoc|].
    split; [done|]. split; [|split; [constructor|done]].
    by rewrite !sleeps_of_app, Hquiet.
  - match goal with
    | |- context [dispatch_loop net time_sleep 1 ?n ?l ?s] =>
        destruct (dispatch_loop_spec delay l 1 n s)
          as (a & b & tr & -> & Hab & Hpaced & Hsleeps); [done..|]
    end.
    cbn [trace processed_emails stats config
         total sent failed invalid duplicates].
    match goal with
    | |- context [print_summary ?s] =>
        destruct (print_summary_spec s) as (tr_sum & -> & Hsum)
    end.
    cbn [trace processed_emails stats config].
    lazymatch goal with
    | |- context [(((((trace self ++ ?l1) ++ ?l2) ++ ?l3) ++ ?l4) ++ tr_read)
                  ++ tr] =>
        exists a, b, (l1 ++ l2 ++ l3 ++ l4 ++ tr_read), tr, tr_sum
    end.
    split; [by rewrite <- !app_assoc|].
    split; [done|]. split; [|done].
    by rewrite !sleeps_of_app, Hquiet.
Qed.

(** The loop when [time.sleep] refuses the delay and a recipient follows
    the first: the first recipient is served, and the exception of the
    suspension ends the loop. *)
Lemma dispatch_loop_stopped delay e email emails n self :
  config self !! "delay_seconds" = Some delay →
  time_sleep delay = Some e →
  (1 <? n)%nat = true →
  ∃ a b tr,
    dispatch_loop net time_sleep 1 n (email :: emails) self
    = (Raise e,
       mkEmailSender (processed_emails self)
         (mkStats (total (stats self)) (sent (stats self) + a)
            (failed (stats self) + b) (invalid (stats self))
            (duplicates (stats self)))
         (config self) (trace self ++ tr))
    ∧ (a + b = 1)%nat
    ∧ sleeps_of tr = [].
Proof.
  intros Hcfg Hsleep Hlt.
  cbn [dispatch_loop]. unfold mbind, M_bind.
  unfold log_message at 1. unfold emit at 1.
  match goal with
  | |- context [send_single_email net email ?s] =>
      destruct (send_single_email_spec email s) as (ok & tr1 & -> & Hserved)
  end.
  cbn [trace processed_emails stats config]. rewrite Hlt.
  unfold config_get, log_message, emit, sleep.
  cbn [trace processed_emails stats config]. rewrite Hcfg.
  cbn [trace processed_emails stats config]. rewrite Hcfg, Hsleep.
  pose proof (served_no_sleeps _ _ Hserved) as Hquiet.
  exists (if ok then 1 else 0)%nat, (if ok then 0 else 1)%nat.
  eexists (_ :: tr1 ++ [_]).
  split; [|split; [by destruct ok|]].
  - assert (Hstats : (if ok then incr_sent (stats self)
                      else incr_failed (stats self))
                     = mkStats (total (stats self))
                         (sent (stats self) + (if ok then 1 else 0))
                         (failed (stats self) + (if ok then 0 else 1))
                         (invalid (stats self)) (duplicates (stats self)))
      by (destruct ok; unfold incr_sent, incr_failed; f_equal; lia).
    rewrite Hstats, <- !app_assoc. reflexivity.
  - cbn. by rewrite sleeps_of_app, Hquiet.
Qed.

(** A whole run when [time.sleep] refuses the delay and two addresses or
    more are extracted: one send is counted, the run makes no suspension,
    and it returns. *)
Lemma send_emails_from_csv_stopped
  csv_file file self host port username delay e :
  config self !! "smtp_host" = Some host →
  config self !! "smtp_port" = Some port →
  config self !! "username" = Some username →
  config self !! "delay_seconds" = Some delay →
  time_sleep delay = Some e →
  let emails := accepted (processed_emails self) (lines_of file) in
  (2 ≤ length emails)%nat →
  ∃ a b tr,
    send_emails_from_csv net time_sleep csv_file file self
    = (Return (),
       mkEmailSender
         (list_to_set emails ∪ processed_emails self)
         (mkStats (length emails) (sent (stats self) + a)
            (failed (stats self) + b)
            (invalid (stats self)
             + length (filter (λ c, is_valid_email c = false)
                         (candidates (lines_of file))))
            (duplicates (stats self)
             + (length (filter (λ c, is_valid_email c = true)
                          (candidates (lines_of file)))
                - length emails)))
         (config self) (trace self ++ tr))
    ∧ (a + b = 1)%nat
    ∧ sleeps_of tr = [].
Proof.
  intros Hhost Hport Huser Hdelay Hsleep emails Hlen.
  unfold send_emails_from_csv, mbind, M_bind.
  unfold log_message at 1 2 3 4. unfold emit, config_get.
  cbn [trace processed_emails stats config].
  rewrite Hhost. cbn [trace processed_emails stats config].
  rewrite Hport. cbn [trace processed_emails stats config].
  rewrite Huser. cbn [trace processed_emails stats config].
  rewrite Hdelay. cbn [trace processed_emails stats config].
  unfold try_finally, try_except, mbind, M_bind.
  match goal with
  | |- context [read_emails_from_csv csv_file file ?s] =>
      destruct (read_emails_from_csv_spec csv_file file s)
        as (tr_read & Hquiet & ->)
  end.
  cbn [trace processed_emails stats config]. fold emails.
  unfold update_stats. cbn [trace processed_emails stats config set_total
                            total sent failed invalid duplicates].
  clearbody emails. destruct emails as [|email emails'];
    [cbn in Hlen; lia|].
  match goal with
  | |- context [dispatch_loop net time_sleep 1 ?n ?l ?s] =>
      destruct (dispatch_loop_stopped delay e email emails' n s)
        as (a & b & tr & -> & Hab & Hsleeps);
        [done | done | apply Nat.ltb_lt; cbn in Hlen |- *; lia |]
  end.
  cbn [trace processed_emails stats config
       total sent failed invalid duplicates].
  unfold log_message, emit. cbn [trace processed_emails stats config].
  match goal with
  | |- context [print_summary ?s] =>
      destruct (print_summary_spec s) as (tr_sum & -> & Hsum)
  end.
  cbn [trace processed_emails stats config].
  lazymatch goal with
  | |- context [(((((((trace self ++ ?l1) ++ ?l2) ++ ?l3) ++ ?l4) ++ tr_read)
                  ++ tr) ++ ?l5) ++ tr_sum] =>
      exists a, b, (l1 ++ l2 ++ l3 ++ l4 ++ tr_read ++ tr ++ l5 ++ tr_sum)
  end.
  split; [by rewrite <- !app_assoc|]. split; [done|].
  by rewrite !sleeps_of_app, Hquiet, Hsleeps, Hsum.
Qed.

(** A run either is not refused a suspension, or is refused the first of
    at least one. *)
Lemma refused_or_not (delay : value) (emails : list (list N)) :
  (time_sleep delay = None ∨ (length emails ≤ 1)%nat)
  ∨ ((∃ e, time_sleep delay = Some e) ∧ (2 ≤ length emails)%nat).
Proof.
  destruct (time_sleep delay) as [e|]; [|by left; left].
  destruct (decide (length emails ≤ 1)%nat); [by left; right|].
  right. split; [by exists e | lia].
Qed.

(** C9, as the code has it: a run whose configuration has the keys that the
    run reads returns, whatever the sends do.  When [time.sleep] accepts
    [delay_seconds], or fewer than two addresses were extracted, the
    recipients are served in the order of the extraction and one suspension
    of [delay_seconds] follows each recipient but the last, whether its send
    was counted as sent or as failed; the run suspends at no other point:
    N - 1 suspensions in all, none for N at most 1.  When [time.sleep]
    raises on [delay_seconds], the run makes no suspension at all, so that
    the number of suspensions is N - 1 only if the delay is accepted or N
    is at most 1. *)
Theorem run_sleeps_between_recipients_unless_refused
  (csv_file : list N) (file : file_result) (self : EmailSender)
  (host port username delay : value) :
  config self !! "smtp_host" = Some host →
  config self !! "smtp_port" = Some port →
  config self !! "username" = Some username →
  config self !! "delay_seconds" = Some delay →
  ∃ emails self_r self' added,
    read_emails_from_csv csv_file file self = (Return emails, self_r)
    ∧ send_emails_from_csv net time_sleep csv_file file self
      = (Return (), self')
    ∧ trace self' = trace self ++ added
    ∧ (time_sleep delay = None ∨ (length emails ≤ 1)%nat →
       ∃ before tr after,
         added = before ++ tr ++ after
         ∧ sleeps_of before = []
         ∧ paced delay emails tr
         ∧ sleeps_of after = []
         ∧ sleeps_of added = replicate (length emails - 1) delay)
    ∧ (time_sleep delay ≠ None → sleeps_of added = [])
    ∧ (length (sleeps_of added) = (length emails - 1)%nat
       ↔ time_sleep delay = None ∨ (length emails ≤ 1)%nat).
Proof.
  intros Hhost Hport Huser Hdelay.
  destruct (read_emails_from_csv_spec csv_file file self) as (tr_r & _ & Hr).
  destruct (refused_or_not delay
              (accepted (processed_emails self) (lines_of file)))
    as [Hfree|[[e Hsleep] Hlen]].
  - destruct (send_emails_from_csv_spec csv_file file self host port username
                delay Hhost Hport Huser Hdelay Hfree)
      as (a & b & before & tr & after & Hrun & _ & Hb & Hpaced & Htr & Ha).
    assert (Hall : sleeps_of (before ++ tr ++ after)
                   = replicate
                       (length (accepted (processed_emails self)
                                  (lines_of file)) - 1) delay)
      by (by rewrite !sleeps_of_app, Hb, Ha, Htr, app_nil_r).
    eexists _, _, _, (before ++ tr ++ after).
    split; [exact Hr|]. split; [exact Hrun|]. split; [done|].
    split; [|split].
    + intros _. by exists before, tr, after.
    + intros Hrefused. rewrite Hall.
      destruct Hfree as [Hnone|Hle]; [done|].
      by replace (length (accepted (processed_emails self) (lines_of file))
                  - 1)%nat with 0%nat by lia.
    + by rewrite Hall, length_replicate.
  - destruct (send_emails_from_csv_stopped csv_file file self host port
                username delay e Hhost Hport Huser Hdelay Hsleep Hlen)
      as (a & b & tr & Hrun & _ & Hquiet).
    eexists _, _, _, tr.
    split; [exact Hr|]. split; [exact Hrun|]. split; [done|].
    split; [|split].
    + intros [Hnone|Hle]; [congruence|lia].
    + done.
    + rewrite Hquiet. cbn [length]. split; [lia|].
      intros [Hnone|Hle]; [congruence|lia].
Qed.

(** C3, as the code has it: every send counts its recipient as sent or as
    failed, one of the two and once.  A run on an object that has sent
    nothing yet, whose configuration has the keys that the run reads,
    returns with [total] the number of addresses that the extraction
    returned: the lines counted as invalid or duplicate are not in it, and
    the dispatch changes neither of those two counts.  At that point
    [sent + failed] is at most [total], and [total = sent + failed] exactly
    when the loop served every recipient: when [time.sleep] accepts
    [delay_seconds] or fewer than two addresses were extracted.  When
    [time.sleep] raises on [delay_seconds] and two addresses or more were
    extracted, the first suspension ends the loop and [sent + failed] is
    1. *)
Theorem run_total_is_sent_plus_failed_iff_loop_completes
  (csv_file : list N) (file : file_result) (self : EmailSender)
  (host port username delay : value) :
  config self !! "smtp_host" = Some host →
  config self !! "smtp_port" = Some port →
  config self !! "username" = Some username →
  config self !! "delay_seconds" = Some delay →
  sent (stats self) = 0%nat →
  failed (stats self) = 0%nat →
  (∀ recipient s,
     ∃ (ok : bool) s',
       send_single_email net recipient s = (Return ok, s')
       ∧ stats s' = if ok then incr_sent (stats s) else incr_failed (stats s))
  ∧ ∃ emails self_r self',
      read_emails_from_csv csv_file file self = (Return emails, self_r)
      ∧ send_emails_from_csv net time_sleep csv_file file self
        = (Return (), self')
      ∧ total (stats self') = length emails
      ∧ invalid (stats self') = invalid (stats self_r)
      ∧ duplicates (stats self') = duplicates (stats self_r)
      ∧ (total (stats self') + invalid (stats self')
         + duplicates (stats self')
         = invalid (stats self) + duplicates (stats self)
           + length (filter (λ l, data_line l = true) (lines_of file)))%nat
      ∧ (sent (stats self') + failed (stats self') ≤ total (stats self'))%nat
      ∧ (total (stats self') = (sent (stats self') + failed (stats self'))%nat
         ↔ time_sleep delay = None ∨ (length emails ≤ 1)%nat)
      ∧ (time_sleep delay ≠ None → (2 ≤ length emails)%nat →
         (sent (stats self') + failed (stats self') = 1)%nat).
Proof.
  intros Hhost Hport Huser Hdelay Hsent Hfailed. split.
  - intros recipient s.
    destruct (send_single_email_spec recipient s) as (ok & tr & -> & _).
    by eexists _, _.
  - destruct (read_emails_from_csv_spec csv_file file self)
      as (tr_r & _ & Hr).
    pose proof (length_accepted (processed_emails self) (lines_of file)).
    pose proof (candidates_partition (candidates (lines_of file))).
    destruct (refused_or_not delay
                (accepted (processed_emails self) (lines_of file)))
      as [Hfree|[[e Hsleep] Hlen]].
    + destruct (send_emails_from_csv_spec csv_file file self host port
                  username delay Hhost Hport Huser Hdelay Hfree)
        as (a & b & before & tr & after & Hrun & Hab & _).
      eexists _, _, _. split; [exact Hr|]. split; [exact Hrun|].
      cbn [stats total sent failed invalid duplicates].
      rewrite <- length_candidates.
      repeat split; try lia; try done.
      intros Hrefused Hlen. destruct Hfree as [Hnone|Hle]; [done|lia].
    + destruct (send_emails_from_csv_stopped csv_file file self host port
                  username delay e Hhost Hport Huser Hdelay Hsleep Hlen)
        as (a & b & tr & Hrun & Hab & _).
      eexists _, _, _. split; [exact Hr|]. split; [exact Hrun|].
      cbn [stats total sent failed invalid duplicates].
      rewrite <- length_candidates.
      repeat split; try lia.
      intros [Hnone|Hle]; [congruence|lia].
Qed.

End DispatchFacts.

Lemma run_sleeps_between_recipients_unless_refused_witness :
  ∃ emails self_r self' added,
    read_emails_from_csv (lit "emails.csv") (FileLines example_lines)
      example_sender
    = (Return emails, self_r)
    ∧ send_emails_from_csv net_refusing sleep_nonnegative (lit "emails.csv")
        (FileLines example_lines) example_sender
      = (Return (), self')
    ∧ trace self' = trace example_sender ++ added
    ∧ (sleep_nonnegative (VInt 2) = None ∨ (length emails ≤ 1)%nat →
       ∃ before tr after,
         added = before ++ tr ++ after
         ∧ sleeps_of before = []
         ∧ paced (VInt 2) emails tr
         ∧ sleeps_of after = []
         ∧ sleeps_of added = replicate (length emails - 1) (VInt 2))
    ∧ (sleep_nonnegative (VInt 2) ≠ None → sleeps_of added = [])
    ∧ (length (sleeps_of added) = (length emails - 1)%nat
       ↔ sleep_nonnegative (VInt 2) = None ∨ (length emails ≤ 1)%nat).
Proof.
  apply (run_sleeps_between_recipients_unless_refused net_refusing
           sleep_nonnegative (lit "emails.csv") (FileLines example_lines)
           example_sender (VStr (lit "smtp.example.com")) (VInt 587)
           (VStr (lit "sender@example.com")) (VInt 2));
    reflexivity.
Defined.

(** C9 as stated fails: with a delay that [time.sleep] refuses (a negative
    number raises [ValueError]) a run over two valid recipients returns
    without a single suspension, not with one. *)
Lemma refused_delay_leaves_no_suspension :
  let self := mkEmailSender ∅ no_stats negative_delay_config [] in
  let emails :=
    read_emails_from_csv (lit "emails.csv") (FileLines example_lines) self in
  let r := send_emails_from_csv net_up sleep_nonnegative (lit "emails.csv")
             (FileLines example_lines) self in
  emails.1 = Return [lit "alice@test.com"; lit "bob@test.com"]
  ∧ config self !! "delay_seconds" = Some (VInt (-1))
  ∧ r.1 = Return ()
  ∧ sleeps_of (trace r.2) = []
  ∧ sleeps_of (trace r.2) ≠ replicate (2 - 1) (VInt (-1)).
Proof. vm_compute. repeat split; [reflexivity..|discriminate]. Qed.

Lemma run_total_is_sent_plus_failed_iff_loop_completes_witness :
  (∀ recipient s,
     ∃ (ok : bool) s',
       send_single_email net_up recipient s = (Return ok, s')
       ∧ stats s' = if ok then incr_sent (stats s) else incr_failed (stats s))
  ∧ ∃ emails self_r self',
      read_emails_from_csv (lit "emails.csv") (FileLines example_lines)
        example_sender
      = (Return emails, self_r)
      ∧ send_emails_from_csv net_up sleep_nonnegative (lit "emails.csv")
          (FileLines example_lines) example_sender
        = (Return (), self')
      ∧ total (stats self') = length emails
      ∧ invalid (stats self') = invalid (stats self_r)
      ∧ duplicates (stats self') = duplicates (stats self_r)
      ∧ (total (stats self') + invalid (stats self')
         + duplicates (stats self')
         = invalid (stats example_sender) + duplicates (stats example_sender)
           + length (filter (λ l, data_line l = true)
                       (lines_of (FileLines example_lines))))%nat
      ∧ (sent (stats self') + failed (stats self') ≤ total (stats self'))%nat
      ∧ (total (stats self') = (sent (stats self') + failed (stats self'))%nat
         ↔ sleep_nonnegative (VInt 2) = None ∨ (length emails ≤ 1)%nat)
      ∧ (sleep_nonnegative (VInt 2) ≠ None → (2 ≤ length emails)%nat →
         (sent (stats self') + failed (stats self') = 1)%nat).
Proof.
  apply (run_total_is_sent_plus_failed_iff_loop_completes net_up
           sleep_nonnegative (lit "emails.csv") (FileLines example_lines)
           example_sender (VStr (lit "smtp.example.com")) (VInt 587)
           (VStr (lit "sender@example.com")) (VInt 2));
    reflexivity.
Defined.

(** C3 as stated fails: with a delay that [time.sleep] refuses, a run on a
    new object over two valid recipients returns with [total] 2 and one
    send counted, so that [total] is not [sent + failed]. *)
Lemma refused_delay_leaves_total_above_sent_plus_failed :
  let self := mkEmailSender ∅ no_stats negative_delay_config [] in
  let emails :=
    read_emails_from_csv (lit "emails.csv") (FileLines example_lines) self in
  let r := send_emails_from_csv net_up sleep_nonnegative (lit "emails.csv")
             (FileLines example_lines) self in
  emails.1 = Return [lit "alice@test.com"; lit "bob@test.com"]
  ∧ r.1 = Return ()
  ∧ stats r.2 = mkStats 2 1 0 1 1
  ∧ total (stats r.2) ≠ (sent (stats r.2) + failed (stats r.2))%nat.
Proof. vm_compute. repeat split; [reflexivity..|discriminate]. Qed.

(** ** The scenarios of the specification, evaluated *)

(** Separator priority: the comma cuts the line, whatever follows it. *)
Example separator_priority :
  extract_candidate (lit "a@b.com,second@x.com;third@y.com") = lit "a@b.com".
Proof. reflexivity. Qed.

(** The comma has priority even when another separator comes first. *)
Example separator_priority_not_position :
  extract_candidate (lit "a@b.com;x,y") = lit "a@b.com;x".
Proof. reflexivity. Qed.

(** Quote stripping, with the double quote U+0022. *)
Example double_quotes_stripped :
  extract_candidate ([0x22] ++ lit "user@example.com" ++ [0x22])
  = lit "user@example.com".
Proof. reflexivity. Qed.

(** Header lines are skipped, in any case of their letters. *)
Example headers_skipped :
  data_line (ln "Email") = false ∧ data_line (ln "EMAIL") = false
  ∧ data_line (ln "e-mail") = false ∧ data_line (ln "") = false
  ∧ data_line (ln "email@test.com") = true.
Proof. repeat split; reflexivity. Qed.

(** End to end: two addresses are returned, one line is invalid, one a
    duplicate. *)
Example end_to_end_extraction :
  let r := read_emails_from_csv (lit "emails.csv") (FileLines example_lines)
             example_sender in
  r.1 = Return [lit "alice@test.com"; lit "bob@test.com"]
  ∧ stats r.2 = mkStats 0 0 0 1 1.
Proof. vm_compute. split; reflexivity. Qed.

(** End to end on a transport that serves every step: both recipients are
    sent, with one suspension between them. *)
Example end_to_end_run :
  let r := send_emails_from_csv net_up sleep_nonnegative (lit "emails.csv")
             (FileLines example_lines) example_sender in
  r.1 = Return ()
  ∧ stats r.2 = mkStats 2 2 0 1 1
  ∧ sleeps_of (trace r.2) = [VInt 2].
Proof. vm_compute. repeat split; reflexivity. Qed.

(** A recipient kept with its white space is submitted with it. *)
Example padded_recipient_is_submitted_unstripped :
  let r := send_emails_from_csv net_up sleep_nonnegative (lit "emails.csv")
             (FileLines [ln "' a@b.com'"]) example_sender in
  r.1 = Return ()
  ∧ omap (λ ev, match ev with Sendmail _ to _ => Some to | _ => None end)
         (trace r.2)
    = [lit " a@b.com"].
Proof. vm_compute. split; reflexivity. Qed.

(** * Further properties of the code *)

(** ** Validation and candidate extraction *)

Lemma strip_chars_padded (p : N → bool) (q1 s q2 : list N) :
  Forall (λ c, p c = true) q1 → Forall (λ c, p c = true) q2 →
  strip_chars p (q1 ++ s ++ q2) = strip_chars p s.
Proof.
  intros H1 H2.
  destruct (strip_chars_split p s) as (a & b & Hs & Ha & Hb).
  rewrite Hs at 1.
  replace (q1 ++ (a ++ strip_chars p s ++ b) ++ q2)
    with ((q1 ++ a) ++ strip_chars p s ++ (b ++ q2))
    by (by rewrite <- !app_assoc).
  apply strip_chars_wrapped.
  - by apply Forall_app.
  - by apply Forall_app.
  - apply strip_chars_head.
  - apply strip_chars_last.
Qed.

Lemma strip_chars_idempotent (p : N → bool) (s : list N) :
  strip_chars p (strip_chars p s) = strip_chars p s.
Proof.
  pose proof (strip_chars_wrapped p [] (strip_chars p s) []) as H.
  simpl in H. rewrite app_nil_r in H.
  apply H; [constructor | constructor | apply strip_chars_head
           | apply strip_chars_last].
Qed.

(** X1: the validator ignores white space around the address: padding an
    address with white space on either side changes nothing to the
    verdict, and validating a trimmed address gives the verdict of the
    address. *)
Theorem is_valid_email_ignores_outer_space (ws1 email ws2 : list N) :
  Forall (λ c, isspace c = true) ws1 →
  Forall (λ c, isspace c = true) ws2 →
  is_valid_email (ws1 ++ email ++ ws2) = is_valid_email email
  ∧ is_valid_email (strip email) = is_valid_email email.
Proof.
  intros H1 H2. unfold is_valid_email, strip. split.
  - by rewrite strip_chars_padded.
  - by rewrite strip_chars_idempotent.
Qed.

Lemma is_valid_email_ignores_outer_space_witness :
  is_valid_email (lit "  " ++ lit "a@b.com" ++ [LF])
  = is_valid_email (lit "a@b.com")
  ∧ is_valid_email (strip (lit "a@b.com")) = is_valid_email (lit "a@b.com").
Proof.
  apply (is_valid_email_ignores_outer_space (lit "  ") (lit "a@b.com") [LF]);
    by repeat constructor.
Defined.

Lemma domain_char_local c : domain_char c = true → local_char c = true.
Proof.
  unfold domain_char, local_char. intros H.
  repeat (apply orb_true_iff in H as [H|H]);
    rewrite H, ?orb_true_r; reflexivity.
Qed.

Lemma alpha_char_local c : alpha_char c = true → local_char c = true.
Proof.
  unfold alpha_char, local_char. intros H.
  apply orb_true_iff in H as [H|H]; rewrite H, ?orb_true_r; reflexivity.
Qed.

Lemma local_char_not_at c : local_char c = true → c ≠ AT.
Proof. intros H ->. vm_compute in H. discriminate. Qed.

Lemma isspace_not_at c : isspace c = true → c ≠ AT.
Proof. intros H ->. vm_compute in H. discriminate. Qed.

Lemma occurrences_app c s t :
  occurrences c (s ++ t) = (occurrences c s + occurrences c t)%nat.
Proof. unfold occurrences. by rewrite filter_app, length_app. Qed.

Lemma occurrences_none c (s : list N) :
  Forall (λ x, x ≠ c) s → occurrences c s = 0%nat.
Proof.
  unfold occurrences. induction 1 as [|x s Hx _ IH]; [done|].
  by rewrite filter_cons_False.
Qed.

(** X2: an address that passes the validator holds exactly one [@], and
    once trimmed it is made of letters, digits and the characters
    [._%+-@] only: no white space inside, no separator, no quote. *)
Theorem valid_email_shape (email : list N) :
  is_valid_email email = true →
  occurrences AT email = 1%nat
  ∧ Forall (λ c, local_char c = true ∨ c = AT) (strip email).
Proof.
  intros Hv.
  apply is_valid_email_lang, lang_email_pattern in Hv
    as (local & domain & tld & Hs & _ & Hlocal & _ & Hdomain & _ & Htld).
  assert (Hdot : local_char DOT = true) by reflexivity.
  assert (Hshape : Forall (λ c, local_char c = true ∨ c = AT) (strip email)).
  { rewrite Hs. repeat apply Forall_app_2.
    - eapply Forall_impl; [exact Hlocal|]. tauto.
    - constructor; [by right | constructor].
    - eapply Forall_impl; [exact Hdomain|]. intros c Hc. left.
      by apply domain_char_local.
    - constructor; [by left | constructor].
    - eapply Forall_impl; [exact Htld|]. intros c Hc. left.
      by apply alpha_char_local. }
  split; [|done].
  destruct (strip_chars_split isspace email) as (a & b & He & Ha & Hb).
  fold (strip email) in He. rewrite He, Hs.
  rewrite !occurrences_app.
  rewrite (occurrences_none AT a), (occurrences_none AT b),
    (occurrences_none AT local), (occurrences_none AT domain),
    (occurrences_none AT tld), (occurrences_none AT [DOT]).
  - reflexivity.
  - constructor; [done | constructor].
  - eapply Forall_impl; [exact Htld|]. intros c Hc.
    by apply local_char_not_at, alpha_char_local.
  - eapply Forall_impl; [exact Hdomain|]. intros c Hc.
    by apply local_char_not_at, domain_char_local.
  - eapply Forall_impl; [exact Hlocal|]. intros c Hc.
    by apply local_char_not_at.
  - eapply Forall_impl; [exact Hb|]. intros c Hc. by apply isspace_not_at.
  - eapply Forall_impl; [exact Ha|]. intros c Hc. by apply isspace_not_at.
Qed.

Lemma valid_email_shape_witness :
  occurrences AT (lit " user.name+tag@mail.example.org") = 1%nat
  ∧ Forall (λ c, local_char c = true ∨ c = AT)
      (strip (lit " user.name+tag@mail.example.org")).
Proof.
  apply (valid_email_shape (lit " user.name+tag@mail.example.org")).
  reflexivity.
Defined.

(** ** Parts of a line *)

Lemma part_of_refl (s : list N) : part_of s s.
Proof. exists [], []. by rewrite app_nil_r. Qed.

Lemma part_of_trans (s t u : list N) : part_of s t → part_of t u → part_of s u.
Proof.
  intros (a & b & ->) (a' & b' & ->). exists (a' ++ a), (b ++ b').
  by rewrite <- !app_assoc.
Qed.

Lemma strip_chars_part p (s : list N) : part_of (strip_chars p s) s.
Proof.
  destruct (strip_chars_split p s) as (a & b & Hs & _). by exists a, b.
Qed.

Lemma split_head_part c (s : list N) : part_of (split_head c s) s.
Proof.
  induction s as [|x s (a & b & IH)]; simpl; [apply part_of_refl|].
  destruct (x =? c); [by exists [], (x :: s)|].
  exists [], (drop (length (split_head c s)) s). simpl. f_equal.
  clear IH a b. induction s as [|y s IH]; simpl; [done|].
  destruct (y =? c); simpl; [done|]. by f_equal.
Qed.

Lemma split_head_free c (s : list N) : contains c (split_head c s) = false.
Proof.
  induction s as [|x s IH]; simpl; [done|].
  destruct (x =? c) eqn:Hx; simpl; [done|].
  rewrite IH, orb_false_r. by rewrite N.eqb_sym.
Qed.

Lemma contains_app c (s t : list N) :
  contains c (s ++ t) = contains c s || contains c t.
Proof. unfold contains. apply existsb_app. Qed.

Lemma part_of_free c (s t : list N) :
  part_of s t → contains c t = false → contains c s = false.
Proof.
  intros (a & b & ->). rewrite !contains_app.
  intros H. apply orb_false_iff in H as [_ H].
  by apply orb_false_iff in H as [H _].
Qed.

Lemma first_part_part seps (line : list N) : part_of (first_part seps line) line.
Proof.
  induction seps as [|c seps IH]; simpl; [apply part_of_refl|].
  destruct (contains c line); [|done].
  eapply part_of_trans; [apply strip_chars_part | apply split_head_part].
Qed.

Lemma extract_candidate_part (line : list N) :
  part_of (extract_candidate line) line.
Proof.
  unfold extract_candidate.
  eapply part_of_trans; [apply strip_chars_part | apply first_part_part].
Qed.

(** X3: the candidate is a contiguous part of its line, and it neither
    starts nor ends with a quote character. *)
Theorem extract_candidate_part_of_line (line : list N) :
  part_of (extract_candidate line) line
  ∧ (∀ c, head (extract_candidate line) = Some c → is_quote c = false)
  ∧ (∀ c, last (extract_candidate line) = Some c → is_quote c = false).
Proof.
  split; [apply extract_candidate_part|]. unfold extract_candidate. split.
  - apply strip_chars_head.
  - apply strip_chars_last.
Qed.

(** X4: the candidate never holds a comma; it holds a semicolon only when
    the line has a comma, a tab only when the line has a comma or a
    semicolon, and a pipe only when the line has one of the three. *)
Theorem extract_candidate_separator_free (line : list N) :
  contains COMMA (extract_candidate line) = false
  ∧ (contains COMMA line = false →
     contains SEMICOLON (extract_candidate line) = false)
  ∧ (contains COMMA line = false → contains SEMICOLON line = false →
     contains TAB (extract_candidate line) = false)
  ∧ (contains COMMA line = false → contains SEMICOLON line = false →
     contains TAB line = false →
     contains PIPE (extract_candidate line) = false).
Proof.
  assert (Hcut : ∀ c s, contains c (strip_chars is_quote (strip (split_head c s)))
                        = false).
  { intros c s. eapply part_of_free; [apply strip_chars_part|].
    eapply part_of_free; [apply strip_chars_part | apply split_head_free]. }
  assert (Hkeep : ∀ c s, contains c s = false →
                         contains c (extract_candidate s) = false).
  { intros c s. apply part_of_free, extract_candidate_part. }
  repeat split.
  - destruct (contains COMMA line) eqn:H1; [|by apply Hkeep].
    unfold extract_candidate, separators, first_part. rewrite H1.
    apply Hcut.
  - intros H1. destruct (contains SEMICOLON line) eqn:H2; [|by apply Hkeep].
    unfold extract_candidate, separators, first_part. rewrite H1, H2.
    apply Hcut.
  - intros H1 H2. destruct (contains TAB line) eqn:H3; [|by apply Hkeep].
    unfold extract_candidate, separators, first_part. rewrite H1, H2, H3.
    apply Hcut.
  - intros H1 H2 H3. destruct (contains PIPE line) eqn:H4; [|by apply Hkeep].
    unfold extract_candidate, separators, first_part. rewrite H1, H2, H3, H4.
    apply Hcut.
Qed.

(** ** Extraction: what it changes and what it logs *)

Ltac run_trace :=
  unfold mbind, M_bind, mret, M_ret, log_email_status, log_message, emit,
    update_stats, is_processed, add_processed;
  cbn [snd fst trace processed_emails stats config negb].

Lemma process_line_log n line emails self :
  ∃ tr,
    trace (process_line n line emails self).2 = trace self ++ tr
    ∧ forallb is_logged tr = true
    ∧ length tr = (if data_line line then 2
                   else if header_line line then 1 else 0)%nat.
Proof.
  unfold process_line, data_line, header_line.
  destruct (strip line) as [|c l]; [exists []; by rewrite app_nil_r|].
  destruct (is_header (c :: l)); run_trace.
  - by eexists [_].
  - destruct (is_valid_email _); run_trace.
    + destruct (bool_decide _); run_trace; rewrite <- app_assoc;
        by eexists [_; _].
    + rewrite <- app_assoc. by eexists [_; _].
Qed.

Lemma data_line_not_header line :
  data_line line = true → header_line line = false.
Proof.
  unfold data_line, header_line. destruct (strip line); [done|].
  by intros ?%negb_true_iff.
Qed.

Lemma process_lines_log lines : ∀ n emails self,
  ∃ tr,
    trace (process_lines n lines emails self).2 = trace self ++ tr
    ∧ forallb is_logged tr = true
    ∧ length tr
      = (length (filter (λ l, header_line l = true) lines)
         + 2 * length (filter (λ l, data_line l = true) lines))%nat.
Proof.
  induction lines as [|line lines IH]; intros n emails self.
  - exists []. by rewrite app_nil_r.
  - cbn [process_lines]. unfold mbind, M_bind.
    destruct (process_line_log n line emails self) as (tr1 & Ht1 & Hl1 & Hn1).
    destruct (process_line n line emails self) as [[emails'|e] self1] eqn:Hp.
    + destruct (IH (S n) emails' self1) as (tr2 & Ht2 & Hl2 & Hn2).
      exists (tr1 ++ tr2). cbn [snd] in Ht1.
      rewrite Ht2, Ht1, <- app_assoc. split; [done|].
      rewrite forallb_app, Hl1, Hl2, length_app, Hn1, Hn2.
      split; [done|].
      destruct (data_line line) eqn:Hd, (header_line line) eqn:Hh.
      * by rewrite (data_line_not_header line Hd) in Hh.
      * rewrite (filter_cons_False (λ l, header_line l = true)),
          (filter_cons_True (λ l, data_line l = true));
          [cbn [length]; lia | done | congruence].
      * rewrite (filter_cons_True (λ l, header_line l = true)),
          (filter_cons_False (λ l, data_line l = true));
          [cbn [length]; lia | congruence | done].
      * rewrite (filter_cons_False (λ l, header_line l = true)),
          (filter_cons_False (λ l, data_line l = true));
          [lia | congruence | congruence].
    + exfalso. destruct (data_line line) eqn:Hd.
      * destruct (process_line_classified n line emails self Hd)
          as (tr & _ & Heq).
        rewrite Hp in Heq.
        destruct (is_valid_email _); [destruct (bool_decide _)|]; done.
      * destruct (process_line_skipped n line emails self Hd)
          as (tr & Heq & _).
        rewrite Hp in Heq. done.
Qed.

Lemma read_emails_logged
  (csv_file : list N) (file : file_result) (self : EmailSender) :
  ∃ tr,
    trace (read_emails_from_csv csv_file file self).2 = trace self ++ tr
    ∧ forallb is_logged tr = true
    ∧ length tr = extraction_log_size file.
Proof.
  destruct file as [|e|lines]; cbn [read_emails_from_csv extraction_log_size].
  - by eexists [_].
  - by eexists [_].
  - unfold mbind, M_bind. unfold log_message at 1. unfold emit at 1.
    match goal with
    | |- context [process_lines 1 lines [] ?s] =>
        destruct (process_lines_log lines 1%nat [] s) as (tr & Ht & Hl & Hn);
        destruct (process_lines_spec lines 1%nat [] s) as (tr' & _ & Heq)
    end.
    rewrite Heq in Ht |- *. run_trace. cbn [snd trace] in Ht.
    apply app_inv_head in Ht as ->. rewrite <- !app_assoc.
    eexists. split; [reflexivity|]. cbn [app forallb is_logged].
    rewrite forallb_app, Hl. split; [done|].
    cbn [length]. rewrite length_app, Hn. cbn [length]. lia.
Qed.

(** X5: an extraction logs and does nothing else to the world: every event
    it adds to the trace is a log line, one for a file that cannot be read,
    and for a file that can, the two lines around the loop, one line for
    every header and two for every classified line (none for an empty
    line). *)
Theorem read_emails_log_size
  (csv_file : list N) (file : file_result) (self : EmailSender) :
  ∃ tr,
    trace (read_emails_from_csv csv_file file self).2 = trace self ++ tr
    ∧ forallb is_logged tr = true
    ∧ length tr = extraction_log_size file.
Proof. apply read_emails_logged. Qed.

(** X6: an extraction changes the set and two counters, nothing else: the
    set grows by exactly the addresses returned, none of which it held
    before; the configuration and the counters [total], [sent] and [failed]
    stay as they were. *)
Theorem read_emails_frame
  (csv_file : list N) (file : file_result) (self : EmailSender) :
  ∃ emails self',
    read_emails_from_csv csv_file file self = (Return emails, self')
    ∧ processed_emails self' = list_to_set emails ∪ processed_emails self
    ∧ (∀ e, e ∈ emails → e ∉ processed_emails self)
    ∧ config self' = config self
    ∧ total (stats self') = total (stats self)
    ∧ sent (stats self') = sent (stats self)
    ∧ failed (stats self') = failed (stats self).
Proof.
  destruct (read_emails_from_csv_spec csv_file file self) as (tr & _ & ->).
  eexists _, _. split; [reflexivity|]. cbn.
  split; [done|]. split; [|done].
  intros e He.
  by apply (proj1 (Forall_forall _ _)
              (Forall_accepted (processed_emails self) (lines_of file))) in He
    as [_ ?].
Qed.

(** X7: a set that holds only addresses that pass the validator still does
    after an extraction (the empty set of a new object does). *)
Theorem read_emails_keeps_only_valid
  (csv_file : list N) (file : file_result) (self : EmailSender) :
  only_valid (processed_emails self) →
  only_valid (processed_emails (read_emails_from_csv csv_file file self).2).
Proof.
  intros Hinv.
  destruct (read_emails_from_csv_spec csv_file file self) as (tr & _ & ->).
  cbn. intros e [He|He]%elem_of_union; [|by apply Hinv].
  apply elem_of_list_to_set in He.
  by apply (proj1 (Forall_forall _ _)
              (Forall_accepted (processed_emails self) (lines_of file))) in He
    as [? _].
Qed.

Lemma read_emails_keeps_only_valid_witness :
  only_valid
    (processed_emails
       (read_emails_from_csv (lit "emails.csv") (FileLines example_lines)
          example_sender).2).
Proof.
  apply (read_emails_keeps_only_valid (lit "emails.csv")
           (FileLines example_lines) example_sender).
  intros e He. by apply not_elem_of_empty in He.
Defined.

(** ** One send *)

Section SendFacts.

Variable net : list N → smtp_step → option exn.

Ltac reduce_send :=
  cbv beta iota zeta;
  cbn [trace processed_emails stats config exn_kind exn_text].

Ltac reduce_send_in H :=
  cbv beta iota zeta in H;
  cbn [trace processed_emails stats config exn_kind exn_text] in H.

Ltac unfold_send :=
  unfold send_single_email, create_email_message, try_except, call,
    config_get;
  unfold mbind, M_bind, mret, M_ret, log_email_status, log_message, emit,
    update_stats.

(** X8: with a configuration that has the seven keys a send reads, the
    outcome of a send is decided by the first step that raises.  With none
    the recipient is counted as sent and [SENT] is logged after the one
    submission; otherwise the recipient is counted as failed, the reason
    logged is the text of the exception for a step before the inner [try]
    (message construction, connection, STARTTLS) and, for a step inside it,
    the fixed text for an authentication or a connection error and
    [SMTP Error:] with the text for any other; the submission is in the
    trace exactly when the failing step is [sendmail] itself or [quit]. *)
Theorem send_single_email_outcome (recipient : list N) (self : EmailSender)
  (sender_name username subject body host port password : value) :
  config self !! "sender_name" = Some sender_name →
  config self !! "username" = Some username →
  config self !! "subject" = Some subject →
  config self !! "body" = Some body →
  config self !! "smtp_host" = Some host →
  config self !! "smtp_port" = Some port →
  config self !! "password" = Some password →
  let msg := mkMessage (format_value sender_name ++ lit " <"
                        ++ format_value username ++ lit ">")
                       recipient subject body in
  send_single_email net recipient self
  = match first_failure (net recipient) with
    | None =>
        (Return true,
         mkEmailSender (processed_emails self) (incr_sent (stats self))
           (config self)
           (trace self
            ++ [Sendmail username recipient msg;
                Logged (status_message recipient (lit "SENT") [])]))
    | Some (step, e) =>
        (Return false,
         mkEmailSender (processed_emails self) (incr_failed (stats self))
           (config self)
           (trace self
            ++ (if after_submission step
                then [Sendmail username recipient msg] else [])
            ++ [Logged (status_message recipient (lit "FAILED")
                          (failure_reason step e))]))
    end.
Proof.
  intros H1 H2 H3 H4 H5 H6 H7 msg. subst msg.
  unfold first_failure, steps_in_order, first_failure_in.
  unfold_send.
  rewrite H1, H2, H3, H4. reduce_send.
  destruct (net recipient MimeText) as [e|]; reduce_send; [reflexivity|].
  rewrite H5, H6. reduce_send.
  destruct (net recipient Connect) as [e|]; reduce_send; [reflexivity|].
  destruct (net recipient StartTLS) as [e|]; reduce_send; [reflexivity|].
  rewrite H2, H7. reduce_send.
  destruct (net recipient Login) as [[[] t]|]; reduce_send;
    [reflexivity..|].
  destruct (net recipient AsString) as [[[] t]|]; reduce_send;
    [reflexivity..|].
  rewrite H2. reduce_send.
  destruct (net recipient SendMessage) as [[[] t]|]; reduce_send;
    [by rewrite <- app_assoc..|].
  destruct (net recipient Quit) as [[[] t]|]; reduce_send;
    by rewrite <- app_assoc.
Qed.

(** X9: [SENT] is sound.  Whatever the configuration, a send that returns
    [True] found every key it reads, no step of its session raised, and the
    message was submitted once, to the recipient as given. *)
Theorem send_single_email_true_sound
  (recipient : list N) (self self' : EmailSender) :
  send_single_email net recipient self = (Return true, self') →
  first_failure (net recipient) = None
  ∧ Forall (λ key, is_Some (config self !! key))
      ["sender_name"; "username"; "subject"; "body"; "smtp_host";
       "smtp_port"; "password"]%string
  ∧ ∃ tr, trace self' = trace self ++ tr ∧ submitted_to tr = [recipient]
          ∧ stats self' = incr_sent (stats self).
Proof.
  unfold first_failure, steps_in_order, first_failure_in.
  unfold_send. intros H.
  repeat (match type of H with
          | context [config self !! ?k] => destruct (config self !! k) eqn:?
          | context [net recipient ?s] =>
              destruct (net recipient s) as [[[] ?]|] eqn:?
          end; reduce_send_in H; try discriminate H).
  injection H as <-. cbn [trace stats]. rewrite <- app_assoc.
  split; [done|]. split; [by repeat constructor|]. by eexists.
Qed.

(** X10: a send whose configuration lacks a key of the message is counted
    as failed on any transport, with the [repr] of the first missing key as
    the reason, and submits nothing.  The first missing key is the one that
    [create_email_message] reads first: [key], when the keys read before it
    are present. *)
Theorem send_single_email_missing_message_key
  (recipient : list N) (self : EmailSender)
  (present : list string) (key : string) (rest : list string) :
  message_keys = present ++ key :: rest →
  Forall (λ k, is_Some (config self !! k)) present →
  config self !! key = None →
  send_single_email net recipient self
  = (Return false,
     mkEmailSender (processed_emails self) (incr_failed (stats self))
       (config self)
       (trace self
        ++ [Logged (status_message recipient (lit "FAILED")
                      (exn_text (KeyError key)))])).
Proof.
  intros Hkeys Hpresent Hmissing. unfold message_keys in Hkeys.
  destruct present as [|k1 [|k2 [|k3 [|k4 present]]]];
    cbn [app] in Hkeys; simplify_eq;
    [..|by destruct present];
    repeat match goal with
           | H : Forall _ (_ :: _) |- _ => apply Forall_cons in H as [[? ?] H]
           end;
    unfold_send;
    repeat match goal with
           | H : config self !! _ = _ |- _ => rewrite H; clear H
           end;
    reduce_send; reflexivity.
Qed.

(** Any send returns, changes the two counters and the trace only, and
    submits at most once, to its recipient. *)
Lemma send_single_email_events recipient self :
  ∃ (ok : bool) tr,
    send_single_email net recipient self
    = (Return ok,
       mkEmailSender (processed_emails self)
         (if ok then incr_sent (stats self) else incr_failed (stats self))
         (config self) (trace self ++ tr))
    ∧ sleeps_of tr = []
    ∧ (submitted_to tr = [] ∨ submitted_to tr = [recipient]).
Proof.
  unfold_send.
  repeat (match goal with
          | |- context [config self !! ?k] => destruct (config self !! k) eqn:?
          | |- context [net recipient ?s] =>
              destruct (net recipient s) as [[[] ?]|] eqn:?
          end; reduce_send;
          try (rewrite <- ?app_assoc;
               first [ exists false; eexists; split; [reflexivity|]
                     | exists true; eexists; split; [reflexivity|] ];
               split; [reflexivity|]; first [by left | by right])).
Qed.

End SendFacts.

Lemma send_single_email_outcome_witness :
  send_single_email net_refusing (lit "a@b.com") example_sender
  = match first_failure (net_refusing (lit "a@b.com")) with
    | None =>
        (Return true,
         mkEmailSender (processed_emails example_sender)
           (incr_sent (stats example_sender)) (config example_sender)
           (trace example_sender
            ++ [Sendmail (VStr (lit "sender@example.com")) (lit "a@b.com")
                  (mkMessage
                     (format_value (VStr (lit "Mailer")) ++ lit " <"
                      ++ format_value (VStr (lit "sender@example.com"))
                      ++ lit ">")
                     (lit "a@b.com") (VStr (lit "Hello"))
                     (VStr (lit "Hi there.")));
                Logged (status_message (lit "a@b.com") (lit "SENT") [])]))
    | Some (step, e) =>
        (Return false,
         mkEmailSender (processed_emails example_sender)
           (incr_failed (stats example_sender)) (config example_sender)
           (trace example_sender
            ++ (if after_submission step
                then [Sendmail (VStr (lit "sender@example.com"))
                        (lit "a@b.com")
                        (mkMessage
                           (format_value (VStr (lit "Mailer")) ++ lit " <"
                            ++ format_value (VStr (lit "sender@example.com"))
                            ++ lit ">")
                           (lit "a@b.com") (VStr (lit "Hello"))
                           (VStr (lit "Hi there.")))]
                else [])
            ++ [Logged (status_message (lit "a@b.com") (lit "FAILED")
                          (failure_reason step e))]))
    end.
Proof.
  apply (send_single_email_outcome net_refusing (lit "a@b.com")
           example_sender (VStr (lit "Mailer"))
           (VStr (lit "sender@example.com")) (VStr (lit "Hello"))
           (VStr (lit "Hi there.")) (VStr (lit "smtp.example.com"))
           (VInt 587) (VStr (lit "secret")));
    reflexivity.
Defined.

Lemma send_single_email_missing_message_key_witness :
  let self :=
    mkEmailSender ∅ no_stats
      (<["sender_name" := VStr (lit "Mailer")]> partial_config) [] in
  send_single_email net_up (lit "a@b.com") self
  = (Return false,
     mkEmailSender (processed_emails self) (incr_failed (stats self))
       (config self)
       (trace self
        ++ [Logged (status_message (lit "a@b.com") (lit "FAILED")
                      (exn_text (KeyError "username")))])).
Proof.
  apply (send_single_email_missing_message_key net_up (lit "a@b.com")
           (mkEmailSender ∅ no_stats
              (<["sender_name" := VStr (lit "Mailer")]> partial_config) [])
           ["sender_name"%string] "username" ["subject"; "body"]%string).
  - reflexivity.
  - repeat constructor. by eexists.
  - reflexivity.
Defined.

(** ** A whole run *)

Lemma submitted_to_app tr1 tr2 :
  submitted_to (tr1 ++ tr2) = submitted_to tr1 ++ submitted_to tr2.
Proof. apply omap_app. Qed.

Lemma logged_only_quiet tr :
  forallb is_logged tr = true → submitted_to tr = [] ∧ sleeps_of tr = [].
Proof.
  induction tr as [|[] tr IH]; [done|..]; cbn; done.
Qed.

Section RunFacts.

Variable net : list N → smtp_step → option exn.
Variable time_sleep : value → option exn.

Lemma print_summary_eq self :
  print_summary self
  = (Return (),
     mkEmailSender (processed_emails self) (stats self) (config self)
                   (trace self ++ summary_lines (stats self))).
Proof.
  unfold print_summary, summary_lines, mbind, M_bind, log_message, emit.
  cbn [trace processed_emails stats config]. by rewrite <- !app_assoc.
Qed.

(** The loop on any transport and any [time.sleep]: it returns or raises,
    serves a recipient at most once and in order, and sleeps the delay
    only. *)
Lemma dispatch_loop_any delay emails : ∀ i n self,
  config self !! "delay_seconds" = Some delay →
  ∃ r a b tr,
    dispatch_loop net time_sleep i n emails self
    = (r,
       mkEmailSender (processed_emails self)
         (mkStats (total (stats self)) (sent (stats self) + a)
            (failed (stats self) + b) (invalid (stats self))
            (duplicates (stats self)))
         (config self) (trace self ++ tr))
    ∧ (a + b ≤ length emails)%nat
    ∧ submitted_to tr `sublist_of` emails
    ∧ Forall (λ v, v = delay) (sleeps_of tr).
Proof.
  induction emails as [|email emails IH]; intros i n self Hcfg.
  - exists (Return ()), 0%nat, 0%nat, []. cbn.
    rewrite app_nil_r, !Nat.add_0_r. split; [by destruct self as [? []]|].
    split; [done|]. split; [constructor|constructor].
  - cbn [dispatch_loop]. unfold mbind, M_bind.
    unfold log_message at 1. unfold emit at 1.
    match goal with
    | |- context [send_single_email net email ?s] =>
        destruct (send_single_email_events net email s)
          as (ok & tr1 & -> & Hq1 & Hsub1)
    end.
    cbn [trace processed_emails stats config].
    assert (Hsub : submitted_to tr1 `sublist_of` [email]).
    { destruct Hsub1 as [->| ->]; [apply sublist_nil_l | done]. }
    set (a1 := if ok then 1%nat else 0%nat).
    set (b1 := if ok then 0%nat else 1%nat).
    assert (Hstats : (if ok then incr_sent (stats self)
                      else incr_failed (stats self))
                     = mkStats (total (stats self)) (sent (stats self) + a1)
                         (failed (stats self) + b1) (invalid (stats self))
                         (duplicates (stats self))).
    { subst a1 b1. destruct ok; unfold incr_sent, incr_failed; f_equal; lia. }
    rewrite Hstats. clear Hstats.
    assert (Hab1 : (a1 + b1 = 1)%nat) by (subst a1 b1; by destruct ok).
    clearbody a1 b1.
    destruct (i <? n)%nat.
    + unfold config_get, log_message, emit, sleep.
      cbn [trace processed_emails stats config]. rewrite Hcfg.
      cbn [trace processed_emails stats config]. rewrite Hcfg.
      destruct (time_sleep delay) as [e|].
      * eexists (Raise e), a1, b1, (_ :: tr1 ++ [_]).
        split; [by rewrite <- !app_assoc|]. split; [cbn; lia|].
        cbn. rewrite submitted_to_app, sleeps_of_app, Hq1. cbn.
        split; [|constructor].
        by apply (sublist_app _ [email] [] emails), sublist_nil_l.
      * unfold emit. cbn [trace processed_emails stats config].
        match goal with
        | |- context [dispatch_loop net time_sleep (S i) n emails ?s] =>
            destruct (IH (S i) n s Hcfg)
              as (r & a & b & tr2 & -> & Hab & Hsub2 & Hs2)
        end.
        cbn [trace processed_emails stats config
             total sent failed invalid duplicates].
        eexists r, (a1 + a)%nat, (b1 + b)%nat, (_ :: tr1 ++ [_; _] ++ tr2).
        split; [rewrite <- !app_assoc; cbn; do 3 f_equal; lia|].
        split; [cbn; lia|].
        cbn. rewrite !submitted_to_app, !sleeps_of_app, Hq1. cbn.
        split; [by apply (sublist_app _ [email] _ emails)|].
        by constructor.
    + unfold mret, M_ret. cbv beta iota zeta.
      match goal with
      | |- context [dispatch_loop net time_sleep (S i) n emails ?s] =>
          destruct (IH (S i) n s Hcfg)
            as (r & a & b & tr2 & -> & Hab & Hsub2 & Hs2)
      end.
      cbn [trace processed_emails stats config
           total sent failed invalid duplicates].
      eexists r, (a1 + a)%nat, (b1 + b)%nat, (_ :: tr1 ++ tr2).
      split; [rewrite <- !app_assoc; cbn; do 3 f_equal; lia|].
      split; [cbn; lia|].
      cbn. rewrite !submitted_to_app, !sleeps_of_app, Hq1. cbn.
      split; [by apply (sublist_app _ [email] _ emails)|done].
Qed.

(** A run whose configuration has the keys read before the [try], on any
    transport and any [time.sleep]. *)
Lemma send_emails_from_csv_any csv_file file self host port username delay :
  config self !! "smtp_host" = Some host →
  config self !! "smtp_port" = Some port →
  config self !! "username" = Some username →
  config self !! "delay_seconds" = Some delay →
  let emails := accepted (processed_emails self) (lines_of file) in
  ∃ a b tr,
    send_emails_from_csv net time_sleep csv_file file self
    = (Return (),
       mkEmailSender
         (list_to_set emails ∪ processed_emails self)
         (mkStats (length emails) (sent (stats self) + a)
            (failed (stats self) + b)
            (invalid (stats self)
             + length (filter (λ c, is_valid_email c = false)
                         (candidates (lines_of file))))
            (duplicates (stats self)
             + (length (filter (λ c, is_valid_email c = true)
                          (candidates (lines_of file)))
                - length emails)))
         (config self)
         (trace self ++ tr
          ++ summary_lines
               (mkStats (length emails) (sent (stats self) + a)
                  (failed (stats self) + b)
                  (invalid (stats self)
                   + length (filter (λ c, is_valid_email c = false)
                               (candidates (lines_of file))))
                  (duplicates (stats self)
                   + (length (filter (λ c, is_valid_email c = true)
                                (candidates (lines_of file)))
                      - length emails)))))
    ∧ (a + b ≤ length emails)%nat
    ∧ submitted_to tr `sublist_of` emails
    ∧ Forall (λ v, v = delay) (sleeps_of tr).
Proof.
  intros Hhost Hport Huser Hdelay emails.
  unfold send_emails_from_csv, mbind, M_bind.
  unfold log_message at 1 2 3 4. unfold emit, config_get.
  cbn [trace processed_emails stats config].
  rewrite Hhost. cbn [trace processed_emails stats config].
  rewrite Hport. cbn [trace processed_emails stats config].
  rewrite Huser. cbn [trace processed_emails stats config].
  rewrite Hdelay. cbn [trace processed_emails stats config].
  unfold try_finally, try_except, mbind, M_bind.
  match goal with
  | |- context [read_emails_from_csv csv_file file ?s] =>
      destruct (read_emails_logged csv_file file s)
        as (tr_read & Ht & Hlogged & _);
      destruct (read_emails_from_csv_spec csv_file file s)
        as (tr_read' & _ & Heq)
  end.
  rewrite Heq in Ht |- *. cbn [snd trace] in Ht.
  apply app_inv_head in Ht as ->.
  apply logged_only_quiet in Hlogged as [Hsub_r Hsl_r].
  cbn [trace processed_emails stats config]. fold emails.
  unfold update_stats. cbn [trace processed_emails stats config set_total
                            total sent failed invalid duplicates].
  clearbody emails. destruct emails as [|email emails'].
  - unfold log_message, emit. cbn [trace processed_emails stats config].
    rewrite print_summary_eq. cbn [trace processed_emails stats config].
    lazymatch goal with
    | |- context [((((((trace self ++ ?l1) ++ ?l2) ++ ?l3) ++ ?l4) ++ tr_read)
                   ++ ?l5) ++ _] =>
        exists 0%nat, 0%nat, (l1 ++ l2 ++ l3 ++ l4 ++ tr_read ++ l5)
    end.
    split; [by rewrite !Nat.add_0_r, <- !app_assoc|].
    split; [done|].
    rewrite !submitted_to_app, !sleeps_of_app, Hsub_r, Hsl_r. cbn.
    split; constructor.
  - match goal with
    | |- context [dispatch_loop net time_sleep 1 ?n ?l ?s] =>
        destruct (dispatch_loop_any delay l 1%nat n s)
          as (r & a & b & tr & -> & Hab & Hsub & Hsl); [done|]
    end.
    cbn [trace processed_emails stats config
         total sent failed invalid duplicates].
    destruct r as [[]|e].
    + rewrite print_summary_eq. cbn [trace processed_emails stats config].
      lazymatch goal with
      | |- context [(((((trace self ++ ?l1) ++ ?l2) ++ ?l3) ++ ?l4)
                     ++ tr_read) ++ tr] =>
          exists a, b, (l1 ++ l2 ++ l3 ++ l4 ++ tr_read ++ tr)
      end.
      split; [by rewrite <- !app_assoc|]. split; [done|].
      rewrite !submitted_to_app, !sleeps_of_app, Hsub_r, Hsl_r. cbn.
      done.
    + unfold log_message, emit. cbn [trace processed_emails stats config].
      rewrite print_summary_eq. cbn [trace processed_emails stats config].
      lazymatch goal with
      | |- context [((((((trace self ++ ?l1) ++ ?l2) ++ ?l3) ++ ?l4)
                      ++ tr_read) ++ tr) ++ ?l5] =>
          exists a, b, (l1 ++ l2 ++ l3 ++ l4 ++ tr_read ++ tr ++ l5)
      end.
      split; [by rewrite <- !app_assoc|]. split; [done|].
      rewrite !submitted_to_app, !sleeps_of_app, Hsub_r, Hsl_r. cbn.
      rewrite !app_nil_r. done.
Qed.

(** The loop when [time.sleep] refuses the delay and a recipient follows
    the first: what the loop does is to send to the first recipient and to
    announce the suspension that raises. *)
Lemma dispatch_loop_refused delay e email emails n self :
  config self !! "delay_seconds" = Some delay →
  time_sleep delay = Some e →
  (1 <? n)%nat = true →
  ∃ (ok : bool) tr1,
    let s0 :=
      mkEmailSender (processed_emails self) (stats self) (config self)
        (trace self
         ++ [Logged (lit "INFO | Processing email " ++ format_nat 1
                     ++ lit "/" ++ format_nat n ++ lit ": " ++ email)]) in
    let st := if ok then incr_sent (stats self)
              else incr_failed (stats self) in
    send_single_email net email s0
    = (Return ok,
       mkEmailSender (processed_emails self) st (config self)
                     (trace s0 ++ tr1))
    ∧ dispatch_loop net time_sleep 1 n (email :: emails) self
      = (Raise e,
         mkEmailSender (processed_emails self) st (config self)
           (trace s0 ++ tr1 ++ [Logged (waiting_message delay)]))
    ∧ sleeps_of tr1 = []
    ∧ (submitted_to tr1 = [] ∨ submitted_to tr1 = [email]).
Proof.
  intros Hcfg Hsleep Hlt.
  cbn [dispatch_loop]. unfold mbind, M_bind.
  unfold log_message at 1. unfold emit at 1.
  match goal with
  | |- context [send_single_email net email ?s] =>
      destruct (send_single_email_events net email s)
        as (ok & tr1 & Hsend & Hq1 & Hsub1)
  end.
  exists ok, tr1. cbv zeta. rewrite Hsend.
  cbn [trace processed_emails stats config]. rewrite Hlt.
  unfold config_get, log_message, emit, sleep.
  cbn [trace processed_emails stats config]. rewrite Hcfg.
  cbn [trace processed_emails stats config]. rewrite Hcfg, Hsleep.
  split; [done|]. split; [|done].
  unfold waiting_message. by rewrite <- !app_assoc.
Qed.

(** X11: a run whose configuration has the four keys it reads before its
    [try] never raises, whatever the transport and [time.sleep] do: it
    returns, the last lines it logs are the summary of the counters as
    they are at the end, the configuration is unchanged, [total] is the
    number of addresses extracted and at most that many sends are
    counted. *)
Theorem run_always_ends_with_summary
  (csv_file : list N) (file : file_result) (self : EmailSender)
  (host port username delay : value) :
  config self !! "smtp_host" = Some host →
  config self !! "smtp_port" = Some port →
  config self !! "username" = Some username →
  config self !! "delay_seconds" = Some delay →
  ∃ emails self_r self' tr,
    read_emails_from_csv csv_file file self = (Return emails, self_r)
    ∧ send_emails_from_csv net time_sleep csv_file file self
      = (Return (), self')
    ∧ trace self' = trace self ++ tr ++ summary_lines (stats self')
    ∧ config self' = config self
    ∧ total (stats self') = length emails
    ∧ (sent (stats self') + failed (stats self')
       ≤ sent (stats self) + failed (stats self) + length emails)%nat.
Proof.
  intros Hhost Hport Huser Hdelay.
  destruct (read_emails_from_csv_spec csv_file file self) as (tr_r & _ & Hr).
  destruct (send_emails_from_csv_any csv_file file self host port username
              delay Hhost Hport Huser Hdelay)
    as (a & b & tr & Hrun & Hab & _).
  eexists _, _, _, tr. split; [exact Hr|]. split; [exact Hrun|].
  cbn [trace stats config total sent failed].
  split; [done|]. split; [done|]. split; [done|]. lia.
Qed.

(** X12: a run submits mail to extracted addresses only, in the order of
    the extraction and to each at most once: never to an address that did
    not pass the validator, never to one the object had accepted before,
    never twice to one.  Every suspension it makes lasts the configured
    delay. *)
Theorem run_submits_only_extracted_addresses
  (csv_file : list N) (file : file_result) (self : EmailSender)
  (host port username delay : value) :
  config self !! "smtp_host" = Some host →
  config self !! "smtp_port" = Some port →
  config self !! "username" = Some username →
  config self !! "delay_seconds" = Some delay →
  ∃ emails self_r self' tr,
    read_emails_from_csv csv_file file self = (Return emails, self_r)
    ∧ send_emails_from_csv net time_sleep csv_file file self
      = (Return (), self')
    ∧ trace self' = trace self ++ tr
    ∧ submitted_to tr `sublist_of` emails
    ∧ NoDup (submitted_to tr)
    ∧ Forall (λ to, is_valid_email to = true
                    ∧ to ∉ processed_emails self) (submitted_to tr)
    ∧ Forall (λ v, v = delay) (sleeps_of tr).
Proof.
  intros Hhost Hport Huser Hdelay.
  destruct (read_emails_from_csv_spec csv_file file self) as (tr_r & _ & Hr).
  destruct (send_emails_from_csv_any csv_file file self host port username
              delay Hhost Hport Huser Hdelay)
    as (a & b & tr & Hrun & Hab & Hsub & Hsl).
  eexists _, _, _, (tr ++ summary_lines _).
  split; [exact Hr|]. split; [exact Hrun|].
  cbn [trace]. split; [done|].
  rewrite submitted_to_app, sleeps_of_app.
  replace (submitted_to (summary_lines _)) with (@nil (list N)) by done.
  replace (sleeps_of (summary_lines _)) with (@nil value) by done.
  rewrite !app_nil_r.
  split; [done|]. split; [|split; [|done]].
  - eapply sublist_NoDup; [apply NoDup_first_occurrences | exact Hsub].
  - apply Forall_forall. intros to Hto.
    eapply elem_of_sublist in Hto; [|exact Hsub].
    by apply (proj1 (Forall_forall _ _)
                (Forall_accepted (processed_emails self) (lines_of file))).
Qed.

Ltac run_to_dispatch Hhost Hport Huser Hdelay tr_read Hlogged :=
  unfold send_emails_from_csv, mbind, M_bind;
  unfold log_message at 1 2 3 4; unfold emit, config_get;
  cbn [trace processed_emails stats config];
  rewrite Hhost; cbn [trace processed_emails stats config];
  rewrite Hport; cbn [trace processed_emails stats config];
  rewrite Huser; cbn [trace processed_emails stats config];
  rewrite Hdelay; cbn [trace processed_emails stats config];
  unfold try_finally, try_except, mbind, M_bind;
  match goal with
  | |- context [read_emails_from_csv ?csv_file ?file ?s] =>
      let Ht := fresh "Ht" in
      let Heq := fresh "Heq" in
      let tr' := fresh "tr" in
      destruct (read_emails_logged csv_file file s)
        as (tr_read & Ht & Hlogged & _);
      destruct (read_emails_from_csv_spec csv_file file s)
        as (tr' & _ & Heq);
      rewrite Heq in Ht |- *; cbn [snd trace] in Ht;
      apply app_inv_head in Ht as ->
  end;
  cbn [trace processed_emails stats config];
  unfold update_stats;
  cbn [trace processed_emails stats config set_total
       total sent failed invalid duplicates].

(** X13: when [time.sleep] refuses the configured delay and at least two
    addresses were extracted, the run serves the first recipient only.
    After the lines of the start and of the extraction, the run announces
    the first address as 1 of N, makes the send to it (counted as sent or
    as failed, submitting to that address or to none), announces the
    suspension, logs the exception of [time.sleep] as a critical error and
    ends with the summary: no other recipient is announced or served, no
    suspension is made, one send is counted and [total] is still the number
    of addresses extracted. *)
Theorem run_stops_when_sleep_refuses
  (csv_file : list N) (file : file_result) (self self_r : EmailSender)
  (host port username delay : value) (e : exn)
  (first second : list N) (others : list (list N)) :
  config self !! "smtp_host" = Some host →
  config self !! "smtp_port" = Some port →
  config self !! "username" = Some username →
  config self !! "delay_seconds" = Some delay →
  time_sleep delay = Some e →
  read_emails_from_csv csv_file file self
  = (Return (first :: second :: others), self_r) →
  ∃ (ok : bool) self' before tr1,
    let n := length (first :: second :: others) in
    let s0 :=
      mkEmailSender (processed_emails self_r) (set_total n (stats self_r))
        (config self)
        (trace self ++ before
         ++ [Logged (lit "INFO | Processing email " ++ format_nat 1
                     ++ lit "/" ++ format_nat n ++ lit ": " ++ first)]) in
    let tr :=
      before
      ++ [Logged (lit "INFO | Processing email " ++ format_nat 1
                  ++ lit "/" ++ format_nat n ++ lit ": " ++ first)]
      ++ tr1
      ++ [Logged (waiting_message delay);
          Logged (lit "ERROR | Critical error during email processing: "
                  ++ exn_text e)]
      ++ summary_lines (stats self') in
    send_emails_from_csv net time_sleep csv_file file self
    = (Return (), self')
    ∧ trace self' = trace self ++ tr
    ∧ forallb is_logged before = true
    ∧ send_single_email net first s0
      = (Return ok,
         mkEmailSender (processed_emails self_r) (stats self') (config self)
                       (trace s0 ++ tr1))
    ∧ stats self'
      = (if ok then incr_sent (set_total n (stats self_r))
         else incr_failed (set_total n (stats self_r)))
    ∧ processed_emails self' = processed_emails self_r
    ∧ config self' = config self
    ∧ submitted_to tr `sublist_of` [first]
    ∧ sleeps_of tr = []
    ∧ total (stats self') = n
    ∧ (sent (stats self') + failed (stats self')
       = sent (stats self) + failed (stats self) + 1)%nat.
Proof.
  intros Hhost Hport Huser Hdelay Hsleep Hread.
  destruct (read_emails_from_csv_spec csv_file file self) as (tr_r & _ & Hr).
  rewrite Hr in Hread. injection Hread as Hacc <-. clear Hr.
  run_to_dispatch Hhost Hport Huser Hdelay tr_read Hlogged.
  rewrite Hacc.
  match goal with
  | |- context [dispatch_loop net time_sleep 1 ?n _ ?s] =>
      destruct (dispatch_loop_refused delay e first (second :: others) n s)
        as (ok & tr1 & Hsend & -> & Hsl & Hsub); [done..|]
  end.
  cbv zeta in Hsend.
  cbn [trace processed_emails stats config] in Hsend |- *.
  unfold log_message, emit. cbn [trace processed_emails stats config].
  rewrite print_summary_eq. cbn [trace processed_emails stats config].
  lazymatch goal with
  | |- context [((((trace self ++ ?l1) ++ ?l2) ++ ?l3) ++ ?l4) ++ tr_read] =>
      exists ok; eexists _; exists (l1 ++ l2 ++ l3 ++ l4 ++ tr_read), tr1
  end.
  cbv zeta. split; [reflexivity|].
  cbn [trace processed_emails stats config].
  destruct (logged_only_quiet _ Hlogged) as [Hsub_r Hsl_r].
  split; [by rewrite <- !app_assoc|].
  split; [by rewrite !forallb_app, Hlogged|].
  split; [rewrite <- !app_assoc in Hsend; by rewrite <- !app_assoc|].
  split; [done|]. split; [done|]. split; [done|].
  rewrite !submitted_to_app, !sleeps_of_app, Hsub_r, Hsl_r, Hsl.
  split; [|split; [done|split]].
  - cbn. rewrite !app_nil_r.
    destruct Hsub as [->| ->]; [apply sublist_nil_l | done].
  - by destruct ok.
  - destruct ok; cbn; lia.
Qed.

(** X14: a run whose configuration lacks one of the four keys read before
    the [try] raises [KeyError] for the first of them that is missing, the
    one read first: [key], when the keys read before it are present.  The
    recipient file is not read, nothing is sent, no counter changes and no
    summary is logged: the run has logged its first line and the lines
    that need only the keys before the missing one. *)
Theorem run_raises_on_missing_run_key
  (csv_file : list N) (file : file_result) (self : EmailSender)
  (present : list string) (key : string) (rest : list string) :
  run_keys = present ++ key :: rest →
  Forall (λ k, is_Some (config self !! k)) present →
  config self !! key = None →
  ∃ tr,
    send_emails_from_csv net time_sleep csv_file file self
    = (Raise (KeyError key),
       mkEmailSender (processed_emails self) (stats self) (config self)
         (trace self
          ++ Logged (lit "INFO | === Email Sending Process Started ===")
             :: tr))
    ∧ forallb is_logged tr = true
    ∧ length tr = (length present - 1)%nat.
Proof.
  intros Hkeys Hpresent Hmissing. unfold run_keys in Hkeys.
  destruct present as [|k1 [|k2 [|k3 [|k4 present]]]];
    cbn [app] in Hkeys; simplify_eq;
    [..|by destruct present];
    repeat match goal with
           | H : Forall _ (_ :: _) |- _ => apply Forall_cons in H as [[? ?] H]
           end;
    unfold send_emails_from_csv, mbind, M_bind;
    unfold log_message at 1 2 3 4; unfold emit, config_get;
    cbn [trace processed_emails stats config];
    repeat match goal with
           | H : config self !! _ = _ |- _ =>
               rewrite H; clear H; cbn [trace processed_emails stats config]
           end.
  - by exists [].
  - by exists [].
  - eexists [_]. by rewrite <- !app_assoc.
  - eexists [_; _]. by rewrite <- !app_assoc.
Qed.

(** X15: a run whose extraction returns no address (the file is missing or
    unreadable, holds no valid address, or was read before by the same
    object) is not an error: the run logs that there is nothing to
    process, sends and sleeps nothing, sets [total] to 0, leaves [sent] and
    [failed] as they were, and ends with the summary. *)
Theorem run_without_addresses
  (csv_file : list N) (file : file_result) (self self_r : EmailSender)
  (host port username delay : value) :
  config self !! "smtp_host" = Some host →
  config self !! "smtp_port" = Some port →
  config self !! "username" = Some username →
  config self !! "delay_seconds" = Some delay →
  read_emails_from_csv csv_file file self = (Return [], self_r) →
  ∃ self' tr,
    send_emails_from_csv net time_sleep csv_file file self
    = (Return (), self')
    ∧ trace self' = trace self ++ tr ++ summary_lines (stats self')
    ∧ forallb is_logged tr = true
    ∧ Logged (lit "INFO | No valid emails found to process") ∈ tr
    ∧ total (stats self') = 0%nat
    ∧ sent (stats self') = sent (stats self)
    ∧ failed (stats self') = failed (stats self).
Proof.
  intros Hhost Hport Huser Hdelay Hread.
  destruct (read_emails_from_csv_spec csv_file file self) as (tr_r & _ & Hr).
  rewrite Hr in Hread. injection Hread as Hacc _. clear Hr tr_r.
  run_to_dispatch Hhost Hport Huser Hdelay tr_read Hlogged.
  rewrite Hacc.
  unfold log_message, emit. cbn [trace processed_emails stats config].
  rewrite print_summary_eq. cbn [trace processed_emails stats config].
  lazymatch goal with
  | |- context [((((((trace self ++ ?l1) ++ ?l2) ++ ?l3) ++ ?l4)
                  ++ tr_read) ++ ?l5) ++ _] =>
      eexists _, (l1 ++ l2 ++ l3 ++ l4 ++ tr_read ++ l5)
  end.
  split; [reflexivity|]. cbn [trace stats total sent failed].
  split; [by rewrite <- !app_assoc|].
  split; [by rewrite !forallb_app, Hlogged|].
  split; [|done].
  rewrite !elem_of_app. do 5 right. apply list_elem_of_singleton. done.
Qed.

End RunFacts.

(** ** Configuration from the environment *)

Section ConfigFacts.

Variable getenv : string → option (list N).
Variable int : list N → outcome Z.

(** X16: a configuration built from the environment is complete: it has
    every documented key, the port and the delay as the integers that
    [int] read, whatever variables are set. *)
Theorem load_config_from_environment_is_complete
  (config : gmap string value) :
  load_config getenv int ConfigAbsent = Return config →
  Forall (λ key, is_Some (config !! key)) required_keys
  ∧ ∃ port delay,
      int (getenv_default getenv "SMTP_PORT" "587") = Return port
      ∧ int (getenv_default getenv "EMAIL_DELAY" "90") = Return delay
      ∧ config !! "smtp_port" = Some (VInt port)
      ∧ config !! "delay_seconds" = Some (VInt delay).
Proof.
  unfold load_config.
  destruct (int (getenv_default getenv "SMTP_PORT" "587")) as [port|];
    [|done].
  destruct (int (getenv_default getenv "EMAIL_DELAY" "90")) as [delay|];
    [|done].
  intros [= <-]. split.
  - unfold required_keys. repeat constructor; by eexists.
  - by exists port, delay.
Qed.


End ConfigFacts.

Lemma load_config_from_environment_is_complete_witness :
  Forall (λ key, is_Some (default_config !! key)) required_keys
  ∧ ∃ port delay,
      int_of_digits (getenv_default no_env "SMTP_PORT" "587") = Return port
      ∧ int_of_digits (getenv_default no_env "EMAIL_DELAY" "90")
        = Return delay
      ∧ default_config !! "smtp_port" = Some (VInt port)
      ∧ default_config !! "delay_seconds" = Some (VInt delay).
Proof.
  apply (load_config_from_environment_is_complete no_env int_of_digits
           default_config).
  reflexivity.
Defined.

(** ** The command line *)

Section MainFacts.

Variable getenv : string → option (list N).
Variable int : list N → outcome Z.
Variable net : list N → smtp_step → option exn.
Variable time_sleep : value → option exn.

(** The prints of the configuration succeed exactly when the five keys are
    there, and change nothing. *)
Lemma show_configuration_spec sender :
  (Forall (λ key, is_Some (config sender !! key)) display_keys
   ∧ show_configuration sender = (Return (), sender))
  ∨ (¬ Forall (λ key, is_Some (config sender !! key)) display_keys
     ∧ ∃ e, show_configuration sender = (Raise e, sender)).
Proof.
  unfold show_configuration, display_keys, mbind, M_bind, config_get.
  destruct (config sender !! "smtp_host") eqn:H1;
    [|right; split; [|by eexists]; intros H;
      apply Forall_forall with (x := "smtp_host"%string) in H;
      [rewrite H1 in H; by destruct H | set_solver]].
  destruct (config sender !! "smtp_port") eqn:H2;
    [|right; split; [|by eexists]; intros H;
      apply Forall_forall with (x := "smtp_port"%string) in H;
      [rewrite H2 in H; by destruct H | set_solver]].
  destruct (config sender !! "username") eqn:H3;
    [|right; split; [|by eexists]; intros H;
      apply Forall_forall with (x := "username"%string) in H;
      [rewrite H3 in H; by destruct H | set_solver]].
  destruct (config sender !! "subject") eqn:H4;
    [|right; split; [|by eexists]; intros H;
      apply Forall_forall with (x := "subject"%string) in H;
      [rewrite H4 in H; by destruct H | set_solver]].
  destruct (config sender !! "delay_seconds") eqn:H5;
    [|right; split; [|by eexists]; intros H;
      apply Forall_forall with (x := "delay_seconds"%string) in H;
      [rewrite H5 in H; by destruct H | set_solver]].
  left. split; [|done]. repeat constructor; by eexists.
Qed.

Lemma display_keys_cover_run_keys (config : gmap string value) :
  Forall (λ key, is_Some (config !! key)) display_keys →
  ∃ host port username delay,
    config !! "smtp_host" = Some host ∧ config !! "smtp_port" = Some port
    ∧ config !! "username" = Some username
    ∧ config !! "delay_seconds" = Some delay.
Proof.
  intros H. unfold display_keys in H.
  inv H as [|? ? [host Hhost] H1]. inv H1 as [|? ? [port Hport] H2].
  inv H2 as [|? ? [username Huser] H3]. inv H3 as [|? ? _ H4].
  inv H4 as [|? ? [delay Hdelay] _]. by exists host, port, username, delay.
Qed.

(** X18: the exit status of [main].  It is 0 or 1, and it is 1 exactly
    when the recipient file does not exist, or loading the configuration
    raises, or the configuration lacks one of the five keys that [main]
    prints, or the confirmation meets the end of the input.  Nothing that
    happens while sending makes it 1. *)
Theorem main_exit_status (w : world) :
  ((main getenv int net time_sleep w).1 = 0%nat
   ∨ (main getenv int net time_sleep w).1 = 1%nat)
  ∧ ((main getenv int net time_sleep w).1 = 1%nat
     ↔ path_exists w (csv_file_of (argv w)) = false
       ∨ (path_exists w (csv_file_of (argv w)) = true
          ∧ ((∃ e, load_config getenv int
                     (config_at w (config_file_of (argv w))) = Raise e)
             ∨ (∃ cfg,
                  load_config getenv int
                    (config_at w (config_file_of (argv w))) = Return cfg
                  ∧ (¬ Forall (λ key, is_Some (cfg !! key)) display_keys
                     ∨ (Forall (λ key, is_Some (cfg !! key)) display_keys
                        ∧ prompt w = EndOfInput)))))).
Proof.
  unfold main, new_EmailSender.
  destruct (path_exists w (csv_file_of (argv w))); cbn [negb];
    [|split; [by right|]; split; [by left|done]].
  destruct (load_config getenv int (config_at w (config_file_of (argv w))))
    as [cfg|e].
  - destruct (show_configuration_spec (mkEmailSender ∅ no_stats cfg []))
      as [[Hkeys ->]|[Hkeys [e ->]]]; cbn [config] in Hkeys.
    + destruct (prompt w) as [text| |] eqn:Hprompt.
      * destruct (confirmed text).
        -- destruct (display_keys_cover_run_keys cfg Hkeys)
             as (host & port & username & delay & H1 & H2 & H3 & H4).
           destruct (send_emails_from_csv_any net time_sleep
                       (csv_file_of (argv w))
                       (recipients_at w (csv_file_of (argv w)))
                       (mkEmailSender ∅ no_stats cfg [])
                       host port username delay H1 H2 H3 H4)
             as (a & b & tr & -> & _).
           split; [by left|]. split; [done|].
           intros [?|[_ [[e ?]|(c & [= <-] & [?|[_ ?]])]]]; done.
        -- split; [by left|]. split; [done|].
           intros [?|[_ [[e ?]|(c & [= <-] & [?|[_ ?]])]]]; done.
      * split; [by right|]. split; [|done]. intros _. right.
        split; [done|]. right. exists cfg. split; [done|]. by right.
      * split; [by left|]. split; [done|].
        intros [?|[_ [[e ?]|(c & [= <-] & [?|[_ ?]])]]]; done.
    + split; [by right|]. split; [|done]. intros _. right.
      split; [done|]. right. exists cfg. split; [done|]. by left.
  - split; [by right|]. split; [|done]. intros _. right.
    split; [done|]. left. by exists e.
Qed.

(** X19: [main] sends only on a confirmation.  When the answer is anything
    but [y] or [yes] (in any case of the letters, with any white space
    around), or the confirmation is interrupted or meets the end of the
    input, the object that [main] made is left as it was made: nothing
    logged, nothing read, nothing sent, every counter 0. *)
Theorem main_sends_only_when_confirmed (w : world) (sender : EmailSender) :
  (main getenv int net time_sleep w).2 = Some sender →
  (∀ text, prompt w = Answer text → confirmed text = false) →
  processed_emails sender = ∅ ∧ stats sender = no_stats ∧ trace sender = [].
Proof.
  unfold main, new_EmailSender.
  destruct (path_exists w (csv_file_of (argv w))); cbn [negb]; [|done].
  destruct (load_config getenv int (config_at w (config_file_of (argv w))))
    as [cfg|e]; [|done].
  destruct (show_configuration_spec (mkEmailSender ∅ no_stats cfg []))
    as [[Hkeys ->]|[Hkeys [e ->]]]; [|by intros [= <-]].
  destruct (prompt w) as [text| |]; [|by intros [= <-]..].
  intros Hmain Hanswer. rewrite (Hanswer text eq_refl) in Hmain.
  by injection Hmain as <-.
Qed.

(** X20: on a confirmation [main] runs to the end.  When the recipient file
    exists, the configuration loads with the five keys that [main] prints
    and the answer is [y] or [yes], the run on the new object returns,
    whatever the transport and [time.sleep] do, and [main] ends with
    status 0 and the object as the run left it. *)
Theorem main_confirmed_runs_to_the_end
  (w : world) (cfg : gmap string value) (text : list N) :
  path_exists w (csv_file_of (argv w)) = true →
  load_config getenv int (config_at w (config_file_of (argv w)))
  = Return cfg →
  Forall (λ key, is_Some (cfg !! key)) display_keys →
  prompt w = Answer text →
  confirmed text = true →
  ∃ sender,
    send_emails_from_csv net time_sleep (csv_file_of (argv w))
      (recipients_at w (csv_file_of (argv w)))
      (mkEmailSender ∅ no_stats cfg [])
    = (Return (), sender)
    ∧ main getenv int net time_sleep w = (0%nat, Some sender).
Proof.
  intros Hexists Hload Hkeys Hprompt Hyes.
  unfold main, new_EmailSender. rewrite Hexists, Hload. cbn [negb].
  destruct (show_configuration_spec (mkEmailSender ∅ no_stats cfg []))
    as [[_ ->]|[Hno _]]; [|done].
  rewrite Hprompt, Hyes.
  destruct (display_keys_cover_run_keys cfg Hkeys)
    as (host & port & username & delay & H1 & H2 & H3 & H4).
  destruct (send_emails_from_csv_any net time_sleep
              (csv_file_of (argv w))
              (recipients_at w (csv_file_of (argv w)))
              (mkEmailSender ∅ no_stats cfg [])
              host port username delay H1 H2 H3 H4)
    as (a & b & tr & -> & _).
  by eexists.
Qed.

End MainFacts.

(** ** Instances *)

Lemma send_single_email_true_sound_witness :
  first_failure (net_up (lit "a@b.com")) = None
  ∧ Forall (λ key, is_Some (config example_sender !! key))
      ["sender_name"; "username"; "subject"; "body"; "smtp_host";
       "smtp_port"; "password"]%string
  ∧ ∃ tr,
      trace (send_single_email net_up (lit "a@b.com") example_sender).2
      = trace example_sender ++ tr
      ∧ submitted_to tr = [lit "a@b.com"]
      ∧ stats (send_single_email net_up (lit "a@b.com") example_sender).2
        = incr_sent (stats example_sender).
Proof.
  apply (send_single_email_true_sound net_up (lit "a@b.com") example_sender
           (send_single_email net_up (lit "a@b.com") example_sender).2).
  reflexivity.
Defined.

Lemma run_always_ends_with_summary_witness :
  ∃ emails self_r self' tr,
    read_emails_from_csv (lit "emails.csv") (FileLines example_lines)
      example_sender
    = (Return emails, self_r)
    ∧ send_emails_from_csv net_refusing sleep_nonnegative (lit "emails.csv")
        (FileLines example_lines) example_sender
      = (Return (), self')
    ∧ trace self' = trace example_sender ++ tr ++ summary_lines (stats self')
    ∧ config self' = config example_sender
    ∧ total (stats self') = length emails
    ∧ (sent (stats self') + failed (stats self')
       ≤ sent (stats example_sender) + failed (stats example_sender)
         + length emails)%nat.
Proof.
  apply (run_always_ends_with_summary net_refusing sleep_nonnegative
           (lit "emails.csv") (FileLines example_lines) example_sender
           (VStr (lit "smtp.example.com")) (VInt 587)
           (VStr (lit "sender@example.com")) (VInt 2));
    reflexivity.
Defined.

Lemma run_submits_only_extracted_addresses_witness :
  ∃ emails self_r self' tr,
    read_emails_from_csv (lit "emails.csv") (FileLines example_lines)
      example_sender
    = (Return emails, self_r)
    ∧ send_emails_from_csv net_up sleep_nonnegative (lit "emails.csv")
        (FileLines example_lines) example_sender
      = (Return (), self')
    ∧ trace self' = trace example_sender ++ tr
    ∧ submitted_to tr `sublist_of` emails
    ∧ NoDup (submitted_to tr)
    ∧ Forall (λ to, is_valid_email to = true
                    ∧ to ∉ processed_emails example_sender)
        (submitted_to tr)
    ∧ Forall (λ v, v = VInt 2) (sleeps_of tr).
Proof.
  apply (run_submits_only_extracted_addresses net_up sleep_nonnegative
           (lit "emails.csv") (FileLines example_lines) example_sender
           (VStr (lit "smtp.example.com")) (VInt 587)
           (VStr (lit "sender@example.com")) (VInt 2));
    reflexivity.
Defined.

Lemma run_stops_when_sleep_refuses_witness :
  let self := mkEmailSender ∅ no_stats negative_delay_config [] in
  let self_r :=
    (read_emails_from_csv (lit "emails.csv") (FileLines example_lines)
       self).2 in
  let first := lit "alice@test.com" in
  let e := Exn OtherException (lit "sleep length must be non-negative") in
  ∃ (ok : bool) self' before tr1,
    let n := length [first; lit "bob@test.com"] in
    let s0 :=
      mkEmailSender (processed_emails self_r) (set_total n (stats self_r))
        (config self)
        (trace self ++ before
         ++ [Logged (lit "INFO | Processing email " ++ format_nat 1
                     ++ lit "/" ++ format_nat n ++ lit ": " ++ first)]) in
    let tr :=
      before
      ++ [Logged (lit "INFO | Processing email " ++ format_nat 1
                  ++ lit "/" ++ format_nat n ++ lit ": " ++ first)]
      ++ tr1
      ++ [Logged (waiting_message (VInt (-1)));
          Logged (lit "ERROR | Critical error during email processing: "
                  ++ exn_text e)]
      ++ summary_lines (stats self') in
    send_emails_from_csv net_up sleep_nonnegative (lit "emails.csv")
      (FileLines example_lines) self
    = (Return (), self')
    ∧ trace self' = trace self ++ tr
    ∧ forallb is_logged before = true
    ∧ send_single_email net_up first s0
      = (Return ok,
         mkEmailSender (processed_emails self_r) (stats self') (config self)
                       (trace s0 ++ tr1))
    ∧ stats self'
      = (if ok then incr_sent (set_total n (stats self_r))
         else incr_failed (set_total n (stats self_r)))
    ∧ processed_emails self' = processed_emails self_r
    ∧ config self' = config self
    ∧ submitted_to tr `sublist_of` [first]
    ∧ sleeps_of tr = []
    ∧ total (stats self') = n
    ∧ (sent (stats self') + failed (stats self')
       = sent (stats self) + failed (stats self) + 1)%nat.
Proof.
  apply (run_stops_when_sleep_refuses net_up sleep_nonnegative
           (lit "emails.csv") (FileLines example_lines)
           (mkEmailSender ∅ no_stats negative_delay_config [])
           (read_emails_from_csv (lit "emails.csv")
              (FileLines example_lines)
              (mkEmailSender ∅ no_stats negative_delay_config [])).2
           (VStr (lit "smtp.example.com")) (VInt 587)
           (VStr (lit "sender@example.com")) (VInt (-1))
           (Exn OtherException (lit "sleep length must be non-negative"))
           (lit "alice@test.com") (lit "bob@test.com") []).
  - reflexivity.
  - reflexivity.
  - reflexivity.
  - reflexivity.
  - reflexivity.
  - vm_compute. reflexivity.
Defined.

Lemma run_raises_on_missing_run_key_witness :
  let self := mkEmailSender ∅ no_stats partial_config [] in
  ∃ tr,
    send_emails_from_csv net_up sleep_nonnegative (lit "emails.csv")
      (FileLines example_lines) self
    = (Raise (KeyError "smtp_port"),
       mkEmailSender (processed_emails self) (stats self) (config self)
         (trace self
          ++ Logged (lit "INFO | === Email Sending Process Started ===")
             :: tr))
    ∧ forallb is_logged tr = true
    ∧ length tr = (length ["smtp_host"%string] - 1)%nat.
Proof.
  apply (run_raises_on_missing_run_key net_up sleep_nonnegative
           (lit "emails.csv") (FileLines example_lines)
           (mkEmailSender ∅ no_stats partial_config [])
           ["smtp_host"%string] "smtp_port"
           ["username"; "delay_seconds"]%string).
  - reflexivity.
  - repeat constructor. by eexists.
  - reflexivity.
Defined.

Lemma run_without_addresses_witness :
  ∃ self' tr,
    send_emails_from_csv net_up sleep_nonnegative (lit "emails.csv")
      FileNotFound example_sender
    = (Return (), self')
    ∧ trace self' = trace example_sender ++ tr ++ summary_lines (stats self')
    ∧ forallb is_logged tr = true
    ∧ Logged (lit "INFO | No valid emails found to process") ∈ tr
    ∧ total (stats self') = 0%nat
    ∧ sent (stats self') = sent (stats example_sender)
    ∧ failed (stats self') = failed (stats example_sender).
Proof.
  apply (run_without_addresses net_up sleep_nonnegative (lit "emails.csv")
           FileNotFound example_sender
           (read_emails_from_csv (lit "emails.csv") FileNotFound
              example_sender).2
           (VStr (lit "smtp.example.com")) (VInt 587)
           (VStr (lit "sender@example.com")) (VInt 2)).
  - reflexivity.
  - reflexivity.
  - reflexivity.
  - reflexivity.
  - vm_compute. reflexivity.
Defined.

Lemma main_sends_only_when_confirmed_witness :
  processed_emails example_sender = ∅
  ∧ stats example_sender = no_stats
  ∧ trace example_sender = [].
Proof.
  apply (main_sends_only_when_confirmed no_env int_of_digits net_up
           sleep_nonnegative (example_world (Answer (lit "no")))
           example_sender).
  - reflexivity.
  - intros text [= <-]. reflexivity.
Defined.

Lemma main_confirmed_runs_to_the_end_witness :
  let w := example_world (Answer (lit " Yes ")) in
  ∃ sender,
    send_emails_from_csv net_up sleep_nonnegative (csv_file_of (argv w))
      (recipients_at w (csv_file_of (argv w)))
      (mkEmailSender ∅ no_stats example_config [])
    = (Return (), sender)
    ∧ main no_env int_of_digits net_up sleep_nonnegative w
      = (0%nat, Some sender).
Proof.
  apply (main_confirmed_runs_to_the_end no_env int_of_digits net_up
           sleep_nonnegative (example_world (Answer (lit " Yes ")))
           example_config (lit " Yes ")).
  - reflexivity.
  - reflexivity.
  - unfold display_keys. repeat constructor; by eexists.
  - reflexivity.
  - reflexivity.
Defined.
